(** * pdf-to-anki: the question recognizer and the question manager

    A shallow embedding of [recognizers.py] (class [QuestionRecognizer]),
    [question_manager.py] (class [QuestionManager]), the records of
    [models.py] and the loops of [batch_processor.py] and [ui_controller.py]
    that drive the two classes, followed by the properties proved about
    them.

    Python's [str] is a sequence of Unicode code points; it is modelled as a
    list of code points ([N]).  The regular expressions of the program are
    kept as syntax trees and run by a backtracking matcher that follows the
    semantics of Python's [re] module (ordered alternation, greedy and lazy
    repetition, look-ahead, capture groups, the flags IGNORECASE, MULTILINE
    and DOTALL). *)

From Stdlib Require Import NArith ZArith Lia Ascii String.
From stdpp Require Import base option list sorting gmap.

#[local] Set Warnings "-register-all,-clear-no-such-hyp".
#[local] Open Scope bool_scope.
#[local] Open Scope N_scope.
#[local] Open Scope list_scope.

(* ===================================================================== *)
(** ** Code points and strings *)
(* ===================================================================== *)

Abbreviation char := N (only parsing).
Abbreviation str := (list N) (only parsing).

(** Decoding of a UTF-8 literal of this file into code points, so that the
    patterns and tables below can be written as they are in the source. *)
Fixpoint utf8 (s : string) : str :=
  match s with
  | EmptyString => []
  | String a s1 =>
    let b0 := N_of_ascii a in
    if b0 <? 128 then b0 :: utf8 s1
    else match s1 with
    | EmptyString => [b0]
    | String a1 s2 =>
      let b1 := N.land (N_of_ascii a1) 63 in
      if b0 <? 224 then (N.land b0 31 * 64 + b1) :: utf8 s2
      else match s2 with
      | EmptyString => [b0]
      | String a2 s3 =>
        let b2 := N.land (N_of_ascii a2) 63 in
        if b0 <? 240 then (N.land b0 15 * 4096 + b1 * 64 + b2) :: utf8 s3
        else match s3 with
        | EmptyString => [b0]
        | String a3 s4 =>
          let b3 := N.land (N_of_ascii a3) 63 in
          (N.land b0 7 * 262144 + b1 * 4096 + b2 * 64 + b3) :: utf8 s4
        end
      end
    end
  end.

(** [u "..."] is the literal as a list of code points, computed where it is
    written. *)
Notation "'u' s" :=
  ltac:(let v := eval vm_compute in (utf8 s%string) in exact v)
  (at level 9, s at level 0, only parsing).

(** The code point of a one-character literal. *)
Definition utf8_char (s : string) : char :=
  match utf8 s with
  | c :: _ => c
  | [] => 0
  end.

Notation "'uc' s" :=
  ltac:(let v := eval vm_compute in (utf8_char s%string) in exact v)
  (at level 9, s at level 0, only parsing).

Definition NL : char := 10.

(** The Unicode decimal digits ([str.isdecimal], the class [\d] of [re])
    beyond ASCII depend on the Unicode database of the interpreter; they are
    a parameter of the development. *)
Class UnicodeData := { extra_decimal : char -> bool }.

Definition ascii_digit (c : char) : bool := (48 <=? c) && (c <=? 57).

Definition isdecimal `{UnicodeData} (c : char) : bool :=
  ascii_digit c || extra_decimal c.

(** [str.isspace] on one character, which is also the class [\s] of [re] on
    [str] patterns. *)
Definition isspace (c : char) : bool :=
  ((9 <=? c) && (c <=? 13)) || ((28 <=? c) && (c <=? 32))
  || (c =? 133) || (c =? 160) || (c =? 5760)
  || ((8192 <=? c) && (c <=? 8202))
  || (c =? 8232) || (c =? 8233) || (c =? 8239) || (c =? 8287) || (c =? 12288).

Definition str_eqb (a b : str) : bool := bool_decide (a = b).

(** [s.lstrip()], [s.rstrip()] and [s.strip()]. *)
Fixpoint lstrip (s : str) : str :=
  match s with
  | c :: t => if isspace c then lstrip t else s
  | [] => []
  end.

Definition rstrip (s : str) : str := reverse (lstrip (reverse s)).

Definition strip (s : str) : str := rstrip (lstrip s).

(** Python's truth value of a string: [not s] holds of the empty string. *)
Definition is_empty {A : Type} (l : list A) : bool :=
  match l with [] => true | _ => false end.

(** The guard [not text or not text.strip()]. *)
Definition blank (text : str) : bool := is_empty text || is_empty (strip text).

(** The slice [s[a:b]] for [0 <= a], [0 <= b]. *)
Definition slice (a b : nat) (s : str) : str := take (b - a) (drop a s).

Fixpoint starts_with (p s : str) : bool :=
  match p, s with
  | [], _ => true
  | a :: p1, b :: s1 => (a =? b) && starts_with p1 s1
  | _ :: _, [] => false
  end.

(** [sub in s] for strings. *)
Fixpoint contains (sub s : str) : bool :=
  starts_with sub s ||
  match s with
  | [] => false
  | _ :: t => contains sub t
  end.

(** [s.rfind(c)] for a one-character [c]: the last index, if any. *)
Fixpoint rfind_from (c : char) (s : str) (i : nat) (found : option nat) : option nat :=
  match s with
  | [] => found
  | d :: t => rfind_from c t (S i) (if d =? c then Some i else found)
  end.

Definition rfind (c : char) (s : str) : option nat := rfind_from c s 0 None.

(** [s.replace(c, '')] for a one-character [c]. *)
Definition remove_char (c : char) (s : str) : str :=
  List.filter (fun d => negb (d =? c)) s.

(** [sep.join(parts)]. *)
Fixpoint join (sep : str) (parts : list str) : str :=
  match parts with
  | [] => []
  | [p] => p
  | p :: rest => p ++ sep ++ join sep rest
  end.

(** [str(n)] for a non-negative integer. *)
Fixpoint digits_of_uint (d : Decimal.uint) : str :=
  match d with
  | Decimal.Nil => []
  | Decimal.D0 r => 48 :: digits_of_uint r
  | Decimal.D1 r => 49 :: digits_of_uint r
  | Decimal.D2 r => 50 :: digits_of_uint r
  | Decimal.D3 r => 51 :: digits_of_uint r
  | Decimal.D4 r => 52 :: digits_of_uint r
  | Decimal.D5 r => 53 :: digits_of_uint r
  | Decimal.D6 r => 54 :: digits_of_uint r
  | Decimal.D7 r => 55 :: digits_of_uint r
  | Decimal.D8 r => 56 :: digits_of_uint r
  | Decimal.D9 r => 57 :: digits_of_uint r
  end.

Definition str_of_int (n : N) : str := digits_of_uint (N.to_uint n).

(* ===================================================================== *)
(** ** The [re] module *)
(* ===================================================================== *)

Module re.

(** The flags the program passes to [re]. *)
Record flags := { IGNORECASE : bool; MULTILINE : bool; DOTALL : bool }.

Definition NOFLAG : flags := {| IGNORECASE := false; MULTILINE := false; DOTALL := false |}.
Definition M : flags := {| IGNORECASE := false; MULTILINE := true; DOTALL := false |}.
Definition I : flags := {| IGNORECASE := true; MULTILINE := false; DOTALL := false |}.
Definition IM : flags := {| IGNORECASE := true; MULTILINE := true; DOTALL := false |}.
Definition MS : flags := {| IGNORECASE := false; MULTILINE := true; DOTALL := true |}.
Definition S_ : flags := {| IGNORECASE := false; MULTILINE := false; DOTALL := true |}.

(** The items of a character set [[...]]. *)
Inductive citem :=
| Ch (c : char)            (* a character *)
| Range (lo hi : char)     (* lo-hi *)
| Space                    (* \s *)
| NotSpace                 (* \S *)
| Digit.                   (* \d *)

(** What a repetition repeats: a character set (a literal character is the
    set of that character) or the dot.  Every repetition [*], [+], [{n,}] of
    the program's patterns is over one of these. *)
Inductive atom :=
| ASet (cs : list citem)
| ADot.

Inductive regex :=
| Eps
| Atom (a : atom)
| Bol                                   (* ^ *)
| Eol                                   (* $ *)
| Seq (r1 r2 : regex)
| Alt (r1 r2 : regex)                   (* r1|r2 *)
| Opt (r : regex)                       (* (?:r)? *)
| Rep (a : atom) (min : nat) (greedy : bool)   (* a{min,} or a{min,}? *)
| Grp (n : nat) (r : regex)             (* the n-th capture group *)
| Ahead (r : regex).                    (* (?=r) *)

(** The case variants of a character that are ASCII letters.  The only
    cased characters in the patterns of the program are ASCII letters, so
    under IGNORECASE these are the variants that can make a character
    match: the other case of an ASCII letter, and for the four characters
    U+0130, U+0131, U+017F and U+212A the letters i, s and k. *)
Definition case_variants (c : char) : list char :=
  if (65 <=? c) && (c <=? 90) then [c + 32]
  else if (97 <=? c) && (c <=? 122) then [c - 32]
  else if (c =? 304) || (c =? 305) then [73; 105]
  else if c =? 383 then [83; 115]
  else if c =? 8490 then [75; 107]
  else [].

Section Matcher.
Context `{UnicodeData}.

Definition item_has (c : char) (it : citem) : bool :=
  match it with
  | Ch d => c =? d
  | Range lo hi => (lo <=? c) && (c <=? hi)
  | Space => isspace c
  | NotSpace => negb (isspace c)
  | Digit => isdecimal c
  end.

Definition set_has (fl : flags) (cs : list citem) (c : char) : bool :=
  existsb (item_has c) cs
  || (IGNORECASE fl && existsb (fun d => existsb (item_has d) cs) (case_variants c)).

Definition atom_ok (fl : flags) (a : atom) (c : char) : bool :=
  match a with
  | ASet cs => set_has fl cs c
  | ADot => DOTALL fl || negb (c =? NL)
  end.

(** A position of the scan: the offset, the character before it, the text
    from it on, and the capture groups closed so far (latest first). *)
Record mstate := {
  pos : nat;
  prev : option char;
  rest : str;
  caps : list (nat * (nat * nat))
}.

Definition advance (c : char) (t : str) (st : mstate) : mstate :=
  {| pos := S (pos st); prev := Some c; rest := t; caps := caps st |}.

Definition set_cap (n : nat) (from : nat) (st : mstate) : mstate :=
  {| pos := pos st; prev := prev st; rest := rest st;
     caps := (n, (from, pos st)) :: caps st |}.

Definition at_bol (fl : flags) (st : mstate) : bool :=
  match prev st with
  | None => true
  | Some c => MULTILINE fl && (c =? NL)
  end.

Definition at_eol (fl : flags) (st : mstate) : bool :=
  match rest st with
  | [] => true
  | c :: t => (c =? NL) && (MULTILINE fl || is_empty t)
  end.

(** The loop of a repetition once its minimum is reached. *)
Fixpoint rep_loop (ok : char -> bool) (greedy : bool) (cp : list (nat * (nat * nat)))
    (k : mstate -> option mstate) (p : nat) (pv : option char) (s : str)
    : option mstate :=
  let here := {| pos := p; prev := pv; rest := s; caps := cp |} in
  let more :=
    match s with
    | c :: t => if ok c then rep_loop ok greedy cp k (S p) (Some c) t else None
    | [] => None
    end in
  if greedy then
    match more with Some r => Some r | None => k here end
  else
    match k here with Some r => Some r | None => more end.

Fixpoint rep_min (ok : char -> bool) (greedy : bool) (min : nat)
    (k : mstate -> option mstate) (st : mstate) : option mstate :=
  match min with
  | O => rep_loop ok greedy (caps st) k (pos st) (prev st) (rest st)
  | S m =>
    match rest st with
    | c :: t => if ok c then rep_min ok greedy m k (advance c t st) else None
    | [] => None
    end
  end.

(** The backtracking matcher: [run fl r st k] matches [r] at [st] and hands
    every way of doing so, in Python's order of preference, to the
    continuation [k] until one succeeds. *)
Fixpoint run (fl : flags) (r : regex) (st : mstate)
    (k : mstate -> option mstate) : option mstate :=
  match r with
  | Eps => k st
  | Atom a =>
    match rest st with
    | c :: t => if atom_ok fl a c then k (advance c t st) else None
    | [] => None
    end
  | Bol => if at_bol fl st then k st else None
  | Eol => if at_eol fl st then k st else None
  | Seq r1 r2 => run fl r1 st (fun st1 => run fl r2 st1 k)
  | Alt r1 r2 =>
    match run fl r1 st k with
    | Some res => Some res
    | None => run fl r2 st k
    end
  | Opt r1 =>
    match run fl r1 st k with
    | Some res => Some res
    | None => k st
    end
  | Rep a min greedy => rep_min (atom_ok fl a) greedy min k st
  | Grp n r1 => run fl r1 st (fun st1 => k (set_cap n (pos st) st1))
  | Ahead r1 =>
    match run fl r1 st Some with
    | Some _ => k st
    | None => None
    end
  end.

(** A match object: [m.start()], [m.end()] and the spans of its groups. *)
Record rmatch := {
  m_start : nat;
  m_end : nat;
  m_caps : list (nat * (nat * nat))
}.

Definition match_at (fl : flags) (r : regex) (p : nat) (pv : option char) (s : str)
    : option rmatch :=
  match run fl r {| pos := p; prev := pv; rest := s; caps := [] |} Some with
  | Some st => Some {| m_start := p; m_end := pos st; m_caps := caps st |}
  | None => None
  end.

Fixpoint search_from (fl : flags) (r : regex) (p : nat) (pv : option char) (s : str)
    : option rmatch :=
  match match_at fl r p pv s with
  | Some m => Some m
  | None =>
    match s with
    | [] => None
    | c :: t => search_from fl r (S p) (Some c) t
    end
  end.

(** [re.search(r, text, fl)]. *)
Definition search (fl : flags) (r : regex) (text : str) : option rmatch :=
  search_from fl r 0 None text.

(** [re.match(r, text, fl)]. *)
Definition match_ (fl : flags) (r : regex) (text : str) : option rmatch :=
  match_at fl r 0 None text.

(** The scan of [re.finditer]: [skip] counts the characters still covered
    by the match found last.  After an empty match the scan moves on by one
    character; none of the patterns the program iterates matches the empty
    string. *)
Fixpoint finditer_from (fl : flags) (r : regex) (skip : nat) (p : nat)
    (pv : option char) (s : str) : list rmatch :=
  match skip with
  | S sk =>
    match s with
    | [] => []
    | c :: t => finditer_from fl r sk (S p) (Some c) t
    end
  | O =>
    match match_at fl r p pv s with
    | Some m =>
      m :: match s with
           | [] => []
           | c :: t => finditer_from fl r (Nat.pred (m_end m - p)) (S p) (Some c) t
           end
    | None =>
      match s with
      | [] => []
      | c :: t => finditer_from fl r 0 (S p) (Some c) t
      end
    end
  end.

(** [list(re.finditer(r, text, fl))]. *)
Definition finditer (fl : flags) (r : regex) (text : str) : list rmatch :=
  finditer_from fl r 0 0 None text.

End Matcher.

(** [m.group(n)] of a match in [text]; the empty string stands for a group
    that took no part in the match. *)
Definition group (text : str) (m : rmatch) (n : nat) : str :=
  match List.find (fun e => Nat.eqb (fst e) n) (m_caps m) with
  | Some (_, (a, b)) => slice a b text
  | None => []
  end.

(** The text with every match of [ms] (in order, not overlapping) replaced
    by [repl], from offset [from] on. *)
Fixpoint splice (text : str) (from : nat) (repl : str) (ms : list rmatch) : str :=
  match ms with
  | [] => drop from text
  | m :: ms1 => slice from (m_start m) text ++ repl ++ splice text (m_end m) repl ms1
  end.

(** [re.sub(r, repl, text, flags=fl)]. *)
Definition sub `{UnicodeData} (fl : flags) (r : regex) (repl text : str) : str :=
  splice text 0 repl (finditer fl r text).

(** [re.sub(r, repl, text, count=1)]. *)
Definition sub1 `{UnicodeData} (fl : flags) (r : regex) (repl text : str) : str :=
  match search fl r text with
  | Some m => take (m_start m) text ++ repl ++ drop (m_end m) text
  | None => text
  end.

(** Pattern syntax. *)
Definition chr (c : char) : regex := Atom (ASet [Ch c]).
Definition lit (s : str) : regex := foldr (fun c r => Seq (chr c) r) Eps s.
Definition chars (s : str) : list citem := map Ch s.
Definition oneof (s : str) : regex := Atom (ASet (chars s)).
Definition set (cs : list citem) : regex := Atom (ASet cs).
Definition star (cs : list citem) : regex := Rep (ASet cs) 0 true.
Definition plus (cs : list citem) : regex := Rep (ASet cs) 1 true.
Definition seq (rs : list regex) : regex := foldr Seq Eps rs.
Definition alt (rs : list regex) : regex :=
  match rs with
  | [] => Eps
  | r :: rs1 => foldl Alt r rs1
  end.
Definition alts (ss : list str) : regex := alt (map lit ss).

End re.

(* ===================================================================== *)
(** ** models.py *)
(* ===================================================================== *)

Inductive QuestionType := SINGLE_CHOICE | MULTIPLE_CHOICE | UNKNOWN.

#[global] Instance QuestionType_eq_dec : EqDecision QuestionType.
Proof. solve_decision. Defined.

Record Image := {
  image_data : list N;
  image_format : str;
  image_width : Z;
  image_height : Z;
  image_position : Z
}.

Record Option := {
  label : str;
  content : str;
  option_images : list Image
}.

(** The values a caller can put in the [Dict[str, Any]] of an update or of
    a question's metadata. *)
Inductive pyval :=
| PNone
| PBool (b : bool)
| PInt (z : Z)
| PStr (s : str)
| PList (l : list pyval)
| PDict (d : gmap str pyval)
| PQuestionType (t : QuestionType)
| POption (o : Option).

Record Question := {
  qid : str;                        (* id *)
  number : str;
  question_text : str;
  options : list Option;
  correct_answers : list str;
  question_type : QuestionType;
  explanation : str;
  images : list Image;
  needs_review : bool;
  selected : bool;
  metadata : gmap str pyval
}.

(** The exceptions of [exceptions.py] that the modelled code raises. *)
Inductive exn := ValidationError (msg : str).

Inductive result (A : Type) :=
| Ok (a : A)
| Raise (e : exn).
Arguments Ok {A} a.
Arguments Raise {A} e.

(* ===================================================================== *)
(** ** recognizers.py: class QuestionRecognizer *)
(* ===================================================================== *)

Import re.

Section QuestionRecognizer.
Context `{UnicodeData}.

(** Pieces shared by the patterns. *)
Definition line_start : regex := Alt Bol (chr NL).          (* (?:^|\n) *)
Definition ws : regex := star [Space].                       (* \s* *)
Definition AZ : list citem := [Range 65 90].                 (* A-Z *)
Definition az : list citem := [Range 97 122].                (* a-z *)
Definition AZaz : list citem := AZ ++ az.                    (* A-Za-z *)
Definition circled : list citem := chars (u "①②③④⑤⑥⑦⑧⑨⑩").
Definition cjk_numeral : list citem := chars (u "一二三四五六七八九十百").
Definition dot3 : regex := oneof (u ".、．").                 (* [.、．] *)

(** QUESTION_NUMBER_PATTERNS *)
Definition QUESTION_NUMBER_PATTERNS : list regex := [
  (* (?:^|\n)\s*(\d+)\s*[.、\):：]\s* *)
  seq [line_start; ws; Grp 1 (plus [Digit]); ws; oneof (u ".、):："); ws];
  (* (?:^|\n)\s*[（(]?([一二三四五六七八九十百]+)[）)]?\s*[、.．:：]\s* *)
  seq [line_start; ws; Opt (oneof (u "（(")); Grp 1 (plus cjk_numeral);
       Opt (oneof (u "）)")); ws; oneof (u "、.．:："); ws];
  (* (?:^|\n)\s*[（(](\d+)[）)]\s* *)
  seq [line_start; ws; oneof (u "（("); Grp 1 (plus [Digit]); oneof (u "）)"); ws];
  (* (?:^|\n)\s*第\s*(\d+|[一二三四五六七八九十百]+)\s*题[.、:：]?\s* *)
  seq [line_start; ws; lit (u "第"); ws;
       Grp 1 (Alt (plus [Digit]) (plus cjk_numeral)); ws; lit (u "题");
       Opt (oneof (u ".、:：")); ws]
].

(** The character sets of the answer patterns. *)
Definition ans_full : list citem :=            (* A-Za-z①..⑩、,，\s *)
  AZaz ++ circled ++ chars (u "、,，") ++ [Space].
Definition ans_sep : list citem :=             (* A-Za-z①..⑩、,， *)
  AZaz ++ circled ++ chars (u "、,，").
Definition ans_circ : list citem := AZaz ++ circled.   (* A-Za-z①..⑩ *)
Definition colon : list citem := chars (u "：:").       (* ：: *)

(** ANSWER_PATTERNS *)
Definition ANSWER_PATTERNS : list regex := [
  (* 【(?:答案|正确答案|参考答案|本题答案)】\s*[：:]?\s*([A-Za-z①..⑩、,，\s]+) *)
  seq [lit (u "【"); alts [u "答案"; u "正确答案"; u "参考答案"; u "本题答案"];
       lit (u "】"); ws; Opt (set colon); ws; Grp 1 (plus ans_full)];
  (* [（\(](?:答案|正确答案|参考答案)[：:]\s*([A-Za-z①..⑩、,，]+)[）\)] *)
  seq [oneof (u "（("); alts [u "答案"; u "正确答案"; u "参考答案"]; set colon; ws;
       Grp 1 (plus ans_sep); oneof (u "）)")];
  (* (?:答案|正确答案|参考答案|本题答案)\s*[：:]\s*([A-Za-z①..⑩、,，\s]+) *)
  seq [alts [u "答案"; u "正确答案"; u "参考答案"; u "本题答案"]; ws; set colon; ws;
       Grp 1 (plus ans_full)];
  (* (?:答案|正确答案|参考答案)\s+([A-Za-z①..⑩]+) *)
  seq [alts [u "答案"; u "正确答案"; u "参考答案"]; plus [Space]; Grp 1 (plus ans_circ)];
  (* (?:应选|选)\s*([A-Za-z]+) *)
  seq [alts [u "应选"; u "选"]; ws; Grp 1 (plus AZaz)];
  (* ([A-Z])\s*[√✓] *)
  seq [Grp 1 (set AZ); ws; oneof (u "√✓")];
  (* 正确(?:选项|答案)(?:为|是)\s*([A-Za-z①..⑩、,，]+) *)
  seq [lit (u "正确"); alts [u "选项"; u "答案"]; alts [u "为"; u "是"]; ws;
       Grp 1 (plus ans_sep)];
  (* (?:^|\n)\s*答案\s*[：:]*\s*([A-Za-z]+)\s*(?:\n|$) *)
  seq [line_start; ws; lit (u "答案"); ws; star colon; ws; Grp 1 (plus AZaz); ws;
       Alt (chr NL) Eol];
  (* 答\s*案\s*[：:]*\s*([A-Za-z]+) *)
  seq [lit (u "答"); ws; lit (u "案"); ws; star colon; ws; Grp 1 (plus AZaz)];
  (* \[(?:答案|正确答案|参考答案)\]\s*[：:]?\s*([A-Za-z①..⑩、,，]+) *)
  seq [lit (u "["); alts [u "答案"; u "正确答案"; u "参考答案"]; lit (u "]"); ws;
       Opt (set colon); ws; Grp 1 (plus ans_sep)];
  (* 故\s*选\s*(?:择)?\s*([A-Za-z]+) *)
  seq [lit (u "故"); ws; lit (u "选"); ws; Opt (lit (u "择")); ws; Grp 1 (plus AZaz)];
  (* 本题\s*选\s*([A-Za-z]+) *)
  seq [lit (u "本题"); ws; lit (u "选"); ws; Grp 1 (plus AZaz)]
].

Definition lazy_any : regex := Rep (ASet [Space; NotSpace]) 1 false.   (* [\s\S]+? *)
Definition next_numbered : regex :=                                    (* \n\s*\d+\s*[.、．] *)
  seq [chr NL; ws; plus [Digit]; ws; dot3].

(** EXPLANATION_PATTERNS *)
Definition EXPLANATION_PATTERNS : list regex := [
  (* 【(?:解析|解答|分析|详解|答案解析)】\s*([\s\S]+?)
     (?=【(?:正确答案|答案|解析|解答|分析|详解)】|\n\s*\d+\s*[.、．]\s*【|$) *)
  seq [lit (u "【"); alts [u "解析"; u "解答"; u "分析"; u "详解"; u "答案解析"];
       lit (u "】"); ws; Grp 1 lazy_any;
       Ahead (alt [
         seq [lit (u "【");
              alts [u "正确答案"; u "答案"; u "解析"; u "解答"; u "分析"; u "详解"];
              lit (u "】")];
         seq [next_numbered; ws; lit (u "【")];
         Eol])];
  (* 【答案解析】\s*([\s\S]+?)(?=【(?:正确答案|答案)】|\n\s*\d+\s*[.、．]\s*【|$) *)
  seq [lit (u "【答案解析】"); ws; Grp 1 lazy_any;
       Ahead (alt [
         seq [lit (u "【"); alts [u "正确答案"; u "答案"]; lit (u "】")];
         seq [next_numbered; ws; lit (u "【")];
         Eol])];
  (* (?:解析|解答|分析|详解|答案解析)\s*[：:]\s*([\s\S]+?)
     (?=\n\s*\d+\s*[.、．]\s*(?:【|[A-Z])|$) *)
  seq [alts [u "解析"; u "解答"; u "分析"; u "详解"; u "答案解析"]; ws; set colon; ws;
       Grp 1 lazy_any;
       Ahead (alt [
         seq [next_numbered; ws; Alt (lit (u "【")) (set AZ)];
         Eol])];
  (* \[(?:解析|解答|分析)\]\s*([\s\S]+?)(?=\[(?:正确答案|答案)\]|\n\s*\d+\s*[.、．]|$) *)
  seq [lit (u "["); alts [u "解析"; u "解答"; u "分析"]; lit (u "]"); ws;
       Grp 1 lazy_any;
       Ahead (alt [
         seq [lit (u "["); alts [u "正确答案"; u "答案"]; lit (u "]")];
         next_numbered;
         Eol])]
].

(** CIRCLE_TO_LETTER *)
Definition CIRCLE_TO_LETTER : list (char * str) := [
  (uc "①", u "A"); (uc "②", u "B"); (uc "③", u "C"); (uc "④", u "D");
  (uc "⑤", u "E"); (uc "⑥", u "F"); (uc "⑦", u "G"); (uc "⑧", u "H");
  (uc "⑨", u "I"); (uc "⑩", u "J")
].

(** CHINESE_TO_ARABIC *)
Definition CHINESE_TO_ARABIC : list (str * str) := [
  (u "一", u "1"); (u "二", u "2"); (u "三", u "3"); (u "四", u "4"); (u "五", u "5");
  (u "六", u "6"); (u "七", u "7"); (u "八", u "8"); (u "九", u "9"); (u "十", u "10");
  (u "十一", u "11"); (u "十二", u "12"); (u "十三", u "13"); (u "十四", u "14");
  (u "十五", u "15");
  (u "二十", u "20"); (u "三十", u "30"); (u "四十", u "40"); (u "五十", u "50");
  (u "百", u "100")
].

(** [d[key]] when [key in d], for a dict literal given as its items. *)
Fixpoint dict_get {K V : Type} `{EqDecision K} (key : K) (d : list (K * V)) : option V :=
  match d with
  | [] => None
  | (k0, v) :: d1 => if decide (k0 = key) then Some v else dict_get key d1
  end.

(** *** _parse_chinese_number *)

Definition chinese_digits : list (char * N) := [
  (uc "零", 0); (uc "一", 1); (uc "二", 2); (uc "三", 3); (uc "四", 4);
  (uc "五", 5); (uc "六", 6); (uc "七", 7); (uc "八", 8); (uc "九", 9)
].

Definition chinese_units : list (char * N) := [ (uc "十", 10); (uc "百", 100) ].

(** One round of the loop over the characters, on the pair [(result, temp)]. *)
Definition parse_step (acc : N * N) (ch : char) : N * N :=
  let '(result, temp) := acc in
  match dict_get ch chinese_digits with
  | Some d => (result, d)
  | None =>
    match dict_get ch chinese_units with
    | Some unit =>
      let temp1 := if temp =? 0 then 1 else temp in
      (result + temp1 * unit, 0)
    | None => (result, temp)
    end
  end.

Definition _parse_chinese_number (chinese : str) : N :=
  let '(result, temp) := foldl parse_step (0, 0) chinese in
  let result := result + temp in
  if 0 <? result then result else 1.

(** *** _convert_chinese_number *)

(* ^[一二三四五六七八九十百]+$ *)
Definition cjk_numeral_only : regex := seq [Bol; plus cjk_numeral; Eol].

Definition _convert_chinese_number (number : str) : str :=
  match dict_get number CHINESE_TO_ARABIC with
  | Some v => v
  | None =>
    match re.match_ NOFLAG cjk_numeral_only number with
    | Some _ => str_of_int (_parse_chinese_number number)
    | None => number
    end
  end.

(** *** _find_question_boundaries *)

(** Whether the offset lies inside an open 【 of the 20 characters before it. *)
Definition is_in_marker (text : str) (start_pos : nat) : bool :=
  let before_text := slice (start_pos - 20) start_pos text in
  match rfind (uc "【") before_text with
  | Some i => negb (contains (u "】") (drop i before_text))
  | None => false
  end.

(** The boundaries one pattern contributes, in the order of its matches. *)
Definition pattern_boundaries (text : str) (pattern : regex) : list (str * nat) :=
  omap (fun m =>
          let number := _convert_chinese_number (group text m 1) in
          let start_pos := m_start m in
          if is_in_marker text start_pos then None else Some (number, start_pos))
       (re.finditer MS pattern text).

Definition candidate_boundaries (text : str) : list (str * nat) :=
  concat (map (pattern_boundaries text) QUESTION_NUMBER_PATTERNS).

(** [boundaries.sort(key=lambda x: x[1])]: a stable sort on the offset. *)
Fixpoint insert_by_pos (b : str * nat) (l : list (str * nat)) : list (str * nat) :=
  match l with
  | [] => [b]
  | b1 :: l1 =>
    if (b.2 <=? b1.2)%nat then b :: l else b1 :: insert_by_pos b l1
  end.

Definition sort_by_pos (l : list (str * nat)) : list (str * nat) :=
  foldr insert_by_pos [] l.

(** The pass that removes repeated boundaries, from the state
    [(seen_numbers, last_pos)] on; the result lists what the pass appends to
    [unique_boundaries]. *)
Fixpoint unique_pass (seen_numbers : gset str) (last_pos : Z)
    (boundaries : list (str * nat)) : list (str * nat) :=
  match boundaries with
  | [] => []
  | (number, pos) :: bs =>
    if (last_pos + 20 <=? Z.of_nat pos)%Z
       && negb (bool_decide (number ∈ seen_numbers))
    then (number, pos) :: unique_pass ({[number]} ∪ seen_numbers) (Z.of_nat pos) bs
    else unique_pass seen_numbers last_pos bs
  end.

Definition _find_question_boundaries (text : str) : list (str * nat) :=
  unique_pass ∅ (-100) (sort_by_pos (candidate_boundaries text)).

(** *** _extract_answer_section *)

(* (\d+)\s*[.、．]\s*【(?:正确答案|答案)】\s*([A-Za-z]+) *)
Definition answer_entry : regex :=
  seq [Grp 1 (plus [Digit]); ws; dot3; ws; lit (u "【");
       alts [u "正确答案"; u "答案"]; lit (u "】"); ws; Grp 2 (plus AZaz)].

(* ^\d+\s*[.、．]\s* *)
Definition number_prefix : regex := seq [Bol; plus [Digit]; ws; dot3; ws].

(** The loop over the matches, [answer_map] being the dict built so far. *)
Fixpoint answer_section_loop (text : str) (matches : list rmatch)
    (answer_map : gmap str str) : gmap str str :=
  match matches with
  | [] => answer_map
  | m :: ms =>
    let number := group text m 1 in
    let start_pos := m_start m in
    let end_pos :=
      match ms with
      | m1 :: _ => m_start m1
      | [] => length text
      end in
    let answer_block := strip (slice start_pos end_pos text) in
    let answer_block := re.sub NOFLAG number_prefix [] answer_block in
    let answer_block := rstrip answer_block in
    answer_section_loop text ms (<[number := answer_block]> answer_map)
  end.

Definition _extract_answer_section (text : str) : gmap str str :=
  answer_section_loop text (re.finditer M answer_entry text) ∅.

(** *** recognize_questions *)

(** The loop over the boundaries; the result lists what it appends to
    [questions]. *)
Fixpoint split_questions (text : str) (answer_map : gmap str str)
    (boundaries : list (str * nat)) : list (str * str) :=
  match boundaries with
  | [] => []
  | (number, start_pos) :: bs =>
    let end_pos :=
      match bs with
      | (_, next_pos) :: _ => next_pos
      | [] => length text
      end in
    let question_text := strip (slice start_pos end_pos text) in
    let question_text :=
      match answer_map !! number with
      | Some answer_info =>
        if negb (contains (u "【正确答案】") question_text)
           && negb (contains (u "【答案】") question_text)
        then question_text ++ [NL] ++ answer_info
        else question_text
      | None => question_text
      end in
    (number, question_text) :: split_questions text answer_map bs
  end.

Definition recognize_questions (text : str) : list (str * str) :=
  if blank text then []
  else
    let answer_map := _extract_answer_section text in
    let boundaries := _find_question_boundaries text in
    if is_empty boundaries then []
    else split_questions text answer_map boundaries.

(** *** extract_options *)

Inductive pattern_type := upper | lower | circle.

(* (?:答案|正确答案|参考答案|【答案】|【正确答案】|【参考答案】) *)
Definition answer_marker_words : regex :=
  alts [u "答案"; u "正确答案"; u "参考答案"; u "【答案】"; u "【正确答案】"; u "【参考答案】"].

Definition open_paren : regex := oneof (u "（(").          (* [（\(] *)
Definition close_paren : regex := oneof (u "）)").         (* [）\)] *)
Definition label_sep : regex := oneof (u ".、)）:：").      (* [.、\)）:：] *)
Definition lazy_dots : regex := Rep ADot 1 false.          (* .+? *)

(** The pattern of the letter families, for the letters [A-Z] or [a-z]:
    (?:^|\n)\s*[（\(]?([A-Z])[）\)]?\s*[.、\)）:：]?\s*(.+?)
    (?=(?:\n\s*[（\(]?[A-Z][）\)]?\s*[.、\)）:：]\s)
       |(?:^|\n)\s*(?:答案|正确答案|参考答案|【答案】|【正确答案】|【参考答案】)|$) *)
Definition letter_option_pattern (letters : list citem) : regex :=
  seq [line_start; ws; Opt open_paren; Grp 1 (set letters); Opt close_paren; ws;
       Opt label_sep; ws; Grp 2 lazy_dots;
       Ahead (alt [
         seq [chr NL; ws; Opt open_paren; set letters; Opt close_paren; ws;
              label_sep; set [Space]];
         seq [line_start; ws; answer_marker_words];
         Eol])].

(* (?:^|\n)\s*([①..⑩])\s*(.+?)
   (?=(?:\n\s*[①..⑩])|(?:^|\n)\s*(?:答案|...|【参考答案】)|$) *)
Definition circle_option_pattern : regex :=
  seq [line_start; ws; Grp 1 (set circled); ws; Grp 2 lazy_dots;
       Ahead (alt [
         seq [chr NL; ws; set circled];
         seq [line_start; ws; answer_marker_words];
         Eol])].

(* \n\s*(?:答案|正确答案|参考答案|【答案】|【正确答案】|【参考答案】).*$ *)
Definition trailing_answer_marker : regex :=
  seq [chr NL; ws; answer_marker_words; Rep ADot 0 true; Eol].

(** [s.upper()] on one character: exact on ASCII and on the two other
    characters whose upper case is an ASCII letter (U+0131, U+017F); any
    other character is left as it is, which never changes whether the
    result is part of the letters A to J. *)
Definition upper_char (c : char) : str :=
  if (97 <=? c) && (c <=? 122) then [c - 32]
  else if c =? 305 then u "I"
  else if c =? 383 then u "S"
  else [c].

Definition str_upper (s : str) : str := concat (map upper_char s).

(** [label in set(letters)] for a string [label]. *)
Definition in_char_set (label : str) (letters : str) : bool :=
  existsb (fun c => str_eqb label [c]) letters.

Definition option_pattern_of (t : pattern_type) : regex * str :=
  match t with
  | upper => (letter_option_pattern AZ, u "ABCDEFGHIJ")
  | lower => (letter_option_pattern az, u "abcdefghij")
  | circle => (circle_option_pattern, u "①②③④⑤⑥⑦⑧⑨⑩")
  end.

Definition normalized_label (t : pattern_type) (label : str) : str :=
  match t with
  | upper | lower => str_upper label
  | circle =>
    match label with
    | [c] => default label (dict_get c CIRCLE_TO_LETTER)
    | _ => label
    end
  end.

Definition _extract_options_by_pattern (text : str) (t : pattern_type) : list Option :=
  let '(pattern, label_set) := option_pattern_of t in
  omap (fun m =>
          let lbl := group text m 1 in
          let content := group text m 2 in
          if in_char_set lbl label_set then
            let content := strip content in
            let content := re.sub S_ trailing_answer_marker [] content in
            let content := strip content in
            if is_empty content then None
            else Some {| label := normalized_label t lbl; content := content;
                         option_images := [] |}
          else None)
       (re.finditer MS pattern text).

Definition extract_options (text : str) : list Option :=
  if blank text then []
  else
    let options := _extract_options_by_pattern text upper in
    if negb (is_empty options) then options
    else
      let options := _extract_options_by_pattern text lower in
      if negb (is_empty options) then options
      else
        let options := _extract_options_by_pattern text circle in
        if negb (is_empty options) then options
        else [].

(** *** _parse_answer_string *)

(** The loop that drops repeated answers, [seen] being the set so far. *)
Fixpoint unique_answers (seen : gset str) (answers : list str) : list str :=
  match answers with
  | [] => []
  | ans :: rest =>
    if bool_decide (ans ∈ seen) then unique_answers seen rest
    else ans :: unique_answers ({[ans]} ∪ seen) rest
  end.

(** What one character of the cleaned string appends to [answers]. *)
Definition answer_of_char (ch : char) : list str :=
  if contains (upper_char ch) (u "ABCDEFGHIJ") then [upper_char ch]
  else
    match dict_get ch CIRCLE_TO_LETTER with
    | Some letter => [letter]
    | None => []
    end.

(** answer_str.replace('、', '').replace(',', '').replace('，', '').replace(' ', '') *)
Definition clean_answer_string (answer_str : str) : str :=
  remove_char (uc " ") (remove_char (uc "，") (remove_char (uc ",")
    (remove_char (uc "、") answer_str))).

Definition _parse_answer_string (answer_str : str) : list str :=
  let clean_str := clean_answer_string answer_str in
  let answers := concat (map answer_of_char clean_str) in
  unique_answers ∅ answers.

(** *** extract_answer *)

(** The bracketed shape after the number: \s*[.、．]\s*【(?:正确答案|答案)】 *)
Definition numbered_answer_tail : regex :=
  seq [ws; dot3; ws; lit (u "【"); alts [u "正确答案"; u "答案"]; lit (u "】")].

(** rf'{question_number}\s*[.、．]\s*【(?:正确答案|答案)】\s*([A-Za-z]+)'.
    The number is spliced into the pattern; for a number made of digits, as
    the recognizer produces them, it stands for its own characters.  [re]
    would read any other number as pattern syntax (and may raise on it):
    the definition is exact for numbers of decimal digits, and what is
    proved through it is stated for such numbers. *)
Definition specific_answer_pattern (question_number : str) : regex :=
  seq [lit question_number; numbered_answer_tail; ws; Grp 1 (plus AZaz)].

(* \d+\s*[.、．]\s*【(?:正确答案|答案)】 *)
Definition multi_answer_pattern : regex := seq [plus [Digit]; numbered_answer_tail].

Definition has_multiple_answers (text : str) : bool :=
  (1 <? length (re.finditer NOFLAG multi_answer_pattern text))%nat.

Definition loose_patterns : list regex := [
  (* 答\s*案\s*[：:]*\s*([A-Za-z]+) *)
  seq [lit (u "答"); ws; lit (u "案"); ws; star colon; ws; Grp 1 (plus AZaz)];
  (* (?:本题|此题|该题).*?([A-Z])\s*(?:选项|项)? *)
  seq [alts [u "本题"; u "此题"; u "该题"]; Rep ADot 0 false; Grp 1 (set AZ); ws;
       Opt (alts [u "选项"; u "项"])]
].

(** A loop [for pattern in patterns] that returns the first non-empty
    parsed answer list; the empty list stands for falling out of the loop. *)
Fixpoint first_answers (fl : flags) (patterns : list regex) (text : str) : list str :=
  match patterns with
  | [] => []
  | pattern :: ps =>
    match re.search fl pattern text with
    | Some m =>
      let answers := _parse_answer_string (group text m 1) in
      if negb (is_empty answers) then answers else first_answers fl ps text
    | None => first_answers fl ps text
    end
  end.

Definition extract_answer (text : str) (question_number : str) : list str :=
  if blank text then []
  else
    let specific :=
      if negb (is_empty question_number) then
        first_answers M [specific_answer_pattern question_number] text
      else [] in
    if negb (is_empty specific) then specific
    else
      let general :=
        if has_multiple_answers text && negb (is_empty question_number) then []
        else first_answers IM ANSWER_PATTERNS text in
      if negb (is_empty general) then general
      else first_answers I loose_patterns text.

(** *** _clean_explanation and extract_explanation *)

(* \n{3,} *)
Definition blank_lines : regex := Rep (ASet [Ch NL]) 3 true.
(* \n\s*【(?:正确答案|答案)】.*$ *)
Definition trailing_answer : regex :=
  seq [chr NL; ws; lit (u "【"); alts [u "正确答案"; u "答案"]; lit (u "】");
       Rep ADot 0 true; Eol].
(* \n\s*\d+\s*[.、．].*$ *)
Definition trailing_question : regex := seq [next_numbered; Rep ADot 0 true; Eol].

Definition _clean_explanation (explanation : str) : str :=
  if is_empty explanation then []
  else
    let explanation := re.sub NOFLAG blank_lines [NL; NL] explanation in
    let explanation := re.sub S_ trailing_answer [] explanation in
    let explanation := re.sub S_ trailing_question [] explanation in
    strip explanation.

(* \n\s*\d+\s*[.、．]\s*【 *)
Definition next_bracketed : regex := seq [next_numbered; ws; lit (u "【")].

(** rf'{question_number}\s*[.、．]\s*【(?:正确答案|答案)】\s*[A-Za-z]+\s*【答案解析】
       \s*([\s\S]+?)(?=\n\s*\d+\s*[.、．]\s*【|$)'
    The number is spliced as in [specific_answer_pattern]: exact for
    numbers of decimal digits. *)
Definition specific_explanation_pattern (question_number : str) : regex :=
  seq [lit question_number; numbered_answer_tail; ws; plus AZaz; ws;
       lit (u "【答案解析】"); ws; Grp 1 lazy_any; Ahead (Alt next_bracketed Eol)].

(* 【答案解析】\s*([\s\S]+) *)
Definition analysis_pattern : regex :=
  seq [lit (u "【答案解析】"); ws; Grp 1 (plus [Space; NotSpace])].

(** The loop over EXPLANATION_PATTERNS; the empty string stands for
    falling out of the loop. *)
Fixpoint first_explanation (fl : flags) (patterns : list regex) (text : str) : str :=
  match patterns with
  | [] => []
  | pattern :: ps =>
    match re.search fl pattern text with
    | Some m =>
      let explanation := _clean_explanation (strip (group text m 1)) in
      if negb (is_empty explanation) then explanation
      else first_explanation fl ps text
    | None => first_explanation fl ps text
    end
  end.

Definition extract_explanation (text : str) (question_number : str) : str :=
  if blank text then []
  else
    let specific :=
      if negb (is_empty question_number) then
        first_explanation M [specific_explanation_pattern question_number] text
      else [] in
    if negb (is_empty specific) then specific
    else if has_multiple_answers text && negb (is_empty question_number) then []
    else
      let analysis :=
        match re.search M analysis_pattern text with
        | Some m =>
          let explanation := strip (group text m 1) in
          let explanation :=
            match re.search NOFLAG next_bracketed explanation with
            | Some next_q => strip (take (m_start next_q) explanation)
            | None => explanation
            end in
          _clean_explanation explanation
        | None => []
        end in
      if negb (is_empty analysis) then analysis
      else first_explanation IM EXPLANATION_PATTERNS text.

(** *** identify_question_type *)

Definition multiple_patterns : list regex :=
  [lit (u "(多选)"); lit (u "（多选）"); lit (u "【多选题】"); lit (u "【多选】");
   lit (u "可多选")].

Definition single_patterns : list regex :=
  [lit (u "(单选)"); lit (u "（单选）"); lit (u "【单选题】"); lit (u "【单选】")].

(** [any(re.search(p, text, re.IGNORECASE) for p in patterns)]. *)
Definition any_search (patterns : list regex) (text : str) : bool :=
  existsb (fun p => bool_decide (is_Some (re.search I p text))) patterns.

Definition identify_question_type (question : Question) (text_block : str)
    : QuestionType :=
  match correct_answers question with
  | [_] => SINGLE_CHOICE
  | _ :: _ :: _ => MULTIPLE_CHOICE
  | [] =>
    let question_text := question_text question in
    if any_search multiple_patterns question_text then MULTIPLE_CHOICE
    else if any_search single_patterns question_text then SINGLE_CHOICE
    else UNKNOWN
  end.

(** *** _extract_question_number and _extract_question_text *)

Fixpoint _extract_question_number_in (patterns : list regex) (text : str) : str :=
  match patterns with
  | [] => []
  | pattern :: ps =>
    match re.search M pattern text with
    | Some m => _convert_chinese_number (group text m 1)
    | None => _extract_question_number_in ps text
    end
  end.

Definition _extract_question_number (text : str) : str :=
  _extract_question_number_in QUESTION_NUMBER_PATTERNS text.

Definition option_patterns : list regex := [
  (* (?:^|\n)\s*[（\(]?[A-Z][）\)]?\s*[.、\)）:：]? *)
  seq [line_start; ws; Opt open_paren; set AZ; Opt close_paren; ws; Opt label_sep];
  (* (?:^|\n)\s*[（\(]?[a-z][）\)]?\s*[.、\)）:：]? *)
  seq [line_start; ws; Opt open_paren; set az; Opt close_paren; ws; Opt label_sep];
  (* (?:^|\n)\s*[①②③④⑤⑥⑦⑧⑨⑩] *)
  seq [line_start; ws; set circled]
].

Definition first_option_pos (text : str) : nat :=
  foldl (fun first pattern =>
           match re.search M pattern text with
           | Some m => if (m_start m <? first)%nat then m_start m else first
           | None => first
           end)
        (length text) option_patterns.

Definition _extract_question_text (text : str) : str :=
  let question_text := strip (take (first_option_pos text) text) in
  foldl (fun question_text pattern => strip (re.sub1 NOFLAG pattern [] question_text))
        question_text QUESTION_NUMBER_PATTERNS.

(** *** _validate_question *)

Definition set_needs_review (b : bool) (q : Question) : Question :=
  {| qid := qid q; number := number q; question_text := question_text q;
     options := options q; correct_answers := correct_answers q;
     question_type := question_type q; explanation := explanation q;
     images := images q; needs_review := b; selected := selected q;
     metadata := metadata q |}.

Definition set_question_type (t : QuestionType) (q : Question) : Question :=
  {| qid := qid q; number := number q; question_text := question_text q;
     options := options q; correct_answers := correct_answers q;
     question_type := t; explanation := explanation q;
     images := images q; needs_review := needs_review q; selected := selected q;
     metadata := metadata q |}.

(** The flag [_validate_question] computes, each [if] of the source setting
    it in turn. *)
Definition review_flag (question : Question) : bool :=
  let needs_review := false in
  let needs_review :=
    if is_empty (question_text question) || is_empty (strip (question_text question))
    then true else needs_review in
  let needs_review :=
    if (length (options question) <? 2)%nat then true else needs_review in
  let needs_review :=
    if is_empty (correct_answers question) then true else needs_review in
  let needs_review :=
    if bool_decide (question_type question = UNKNOWN) then true else needs_review in
  needs_review.

Definition _validate_question (question : Question) : Question :=
  set_needs_review (review_flag question) question.

(** *** parse_question *)

(** [question_id] is the fresh [str(uuid.uuid4())] the call draws. *)
Definition parse_question (question_id : str) (text_block : str) (number : str)
    : result Question :=
  if blank text_block then Raise (ValidationError (u "题目文本不能为空"))
  else
    let number :=
      if is_empty number then _extract_question_number text_block else number in
    let question_text := _extract_question_text text_block in
    let options := extract_options text_block in
    let correct_answers := extract_answer text_block number in
    let explanation := extract_explanation text_block number in
    let question :=
      {| qid := question_id; number := number; question_text := question_text;
         options := options; correct_answers := correct_answers;
         question_type := UNKNOWN; explanation := explanation; images := [];
         needs_review := false; selected := true; metadata := ∅ |} in
    let question :=
      set_question_type (identify_question_type question text_block) question in
    Ok (_validate_question question).

End QuestionRecognizer.

(* ===================================================================== *)
(** ** question_manager.py: class QuestionManager *)
(* ===================================================================== *)

(** The two dicts of a manager.  Every method is a function from the state
    before the call to the state after it and the value returned or the
    exception raised. *)
Record QuestionManager := {
  _questions : gmap str Question;
  _source_file_map : gmap str str
}.

(** [QuestionManager()] *)
Definition new_manager : QuestionManager :=
  {| _questions := ∅; _source_file_map := ∅ |}.

(** [add_question]; [None] is the one falsy value the argument can be. *)
Definition add_question (self : QuestionManager) (question : option Question)
    (source_file : str) : QuestionManager * result str :=
  match question with
  | None => (self, Raise (ValidationError (u "题目不能为空")))
  | Some question =>
    if is_empty (qid question) then
      (self, Raise (ValidationError (u "题目ID不能为空")))
    else if bool_decide (is_Some (_questions self !! qid question)) then
      (self, Raise (ValidationError (u "题目ID '" ++ qid question ++ u "' 已存在")))
    else
      let questions := <[qid question := question]> (_questions self) in
      let source_file_map :=
        if negb (is_empty source_file)
        then <[qid question := source_file]> (_source_file_map self)
        else _source_file_map self in
      ({| _questions := questions; _source_file_map := source_file_map |},
       Ok (qid question))
  end.

Definition remove_question (self : QuestionManager) (question_id : str)
    : QuestionManager * bool :=
  if negb (bool_decide (is_Some (_questions self !! question_id))) then (self, false)
  else
    let questions := delete question_id (_questions self) in
    let source_file_map :=
      if bool_decide (is_Some (_source_file_map self !! question_id))
      then delete question_id (_source_file_map self)
      else _source_file_map self in
    ({| _questions := questions; _source_file_map := source_file_map |}, true).

Definition get_question (self : QuestionManager) (question_id : str) : option Question :=
  _questions self !! question_id.

(** [isinstance] tests of [_validate_updates]. *)
Definition is_str (v : pyval) : bool := match v with PStr _ => true | _ => false end.
Definition is_list (v : pyval) : bool := match v with PList _ => true | _ => false end.
Definition is_bool (v : pyval) : bool := match v with PBool _ => true | _ => false end.
Definition is_dict (v : pyval) : bool := match v with PDict _ => true | _ => false end.
Definition is_option (v : pyval) : bool := match v with POption _ => true | _ => false end.
Definition is_question_type (v : pyval) : bool :=
  match v with PQuestionType _ => true | _ => false end.

(** A check on the value under [key], when the key is present. *)
Definition check_field (updates : gmap str pyval) (key : str) (ok : pyval -> bool)
    (msg : str) (next : result unit) : result unit :=
  match updates !! key with
  | Some v => if ok v then next else Raise (ValidationError msg)
  | None => next
  end.

(** The check of a list and then of each of its elements. *)
Definition check_list_field (updates : gmap str pyval) (key : str)
    (elem_ok : pyval -> bool) (msg_list msg_elem : str) (next : result unit)
    : result unit :=
  match updates !! key with
  | Some (PList l) =>
    if forallb elem_ok l then next else Raise (ValidationError msg_elem)
  | Some _ => Raise (ValidationError msg_list)
  | None => next
  end.

Definition _validate_updates (updates : gmap str pyval) : result unit :=
  if bool_decide (updates = ∅) then Raise (ValidationError (u "更新数据不能为空"))
  else
    check_field updates (u "question_text") is_str (u "问题文本必须是字符串") (
    check_list_field updates (u "options") is_option
      (u "选项必须是列表") (u "选项列表中的元素必须是Option对象") (
    check_list_field updates (u "correct_answers") is_str
      (u "正确答案必须是列表") (u "正确答案列表中的元素必须是字符串") (
    check_field updates (u "question_type") is_question_type
      (u "题目类型必须是QuestionType枚举值") (
    check_field updates (u "needs_review") is_bool (u "needs_review必须是布尔值") (
    check_field updates (u "metadata") is_dict (u "metadata必须是字典") (
    check_field updates (u "number") is_str (u "题目编号必须是字符串") (
    Ok tt))))))).

(** The typed readings of validated values. *)
Definition as_str (v : pyval) : option str := match v with PStr s => Some s | _ => None end.
Definition as_bool (v : pyval) : option bool := match v with PBool b => Some b | _ => None end.
Definition as_dict (v : pyval) : option (gmap str pyval) :=
  match v with PDict d => Some d | _ => None end.
Definition as_question_type (v : pyval) : option QuestionType :=
  match v with PQuestionType t => Some t | _ => None end.
Definition as_option (v : pyval) : option Option :=
  match v with POption o => Some o | _ => None end.
Definition as_list {A : Type} (f : pyval -> option A) (v : pyval) : option (list A) :=
  match v with PList l => mapM f l | _ => None end.

(** The value of a field after [replace(current, **updated_fields)]: the
    one supplied under [key], or else the current one. *)
Definition updated_field {A : Type} (updates : gmap str pyval) (key : str)
    (read : pyval -> option A) (current : A) : A :=
  default current (updates !! key ≫= read).

Definition has_key (updates : gmap str pyval) (key : str) : bool :=
  bool_decide (is_Some (updates !! key)).

Definition _auto_update_question_type (question : Question) : Question :=
  let num_answers := length (correct_answers question) in
  let new_type :=
    if (num_answers =? 0)%nat then UNKNOWN
    else if (num_answers =? 1)%nat then SINGLE_CHOICE
    else MULTIPLE_CHOICE in
  if negb (bool_decide (question_type question = new_type))
  then set_question_type new_type question
  else question.

(** [replace(current_question, **updated_fields)], with [updated_fields]
    built from the keys of [updates] the method reads; metadata is merged
    into a copy of the current one. *)
Definition replace_fields (current_question : Question) (updates : gmap str pyval)
    : Question :=
  let new_metadata :=
    match updates !! (u "metadata") ≫= as_dict with
    | Some d => d ∪ metadata current_question
    | None => metadata current_question
    end in
  {| qid := qid current_question;
     number := updated_field updates (u "number") as_str (number current_question);
     question_text :=
       updated_field updates (u "question_text") as_str
         (question_text current_question);
     options :=
       updated_field updates (u "options") (as_list as_option)
         (options current_question);
     correct_answers :=
       updated_field updates (u "correct_answers") (as_list as_str)
         (correct_answers current_question);
     question_type :=
       updated_field updates (u "question_type") as_question_type
         (question_type current_question);
     explanation := explanation current_question;
     images := images current_question;
     needs_review :=
       updated_field updates (u "needs_review") as_bool
         (needs_review current_question);
     selected := selected current_question;
     metadata := new_metadata |}.

Definition update_question (self : QuestionManager) (question_id : str)
    (updates : gmap str pyval) : QuestionManager * result Question :=
  match _questions self !! question_id with
  | None =>
    (self, Raise (ValidationError (u "题目ID '" ++ question_id ++ u "' 不存在")))
  | Some current_question =>
    match _validate_updates updates with
    | Raise e => (self, Raise e)
    | Ok _ =>
      let updated_question := replace_fields current_question updates in
      let updated_question :=
        if has_key updates (u "correct_answers")
           && negb (has_key updates (u "question_type"))
        then _auto_update_question_type updated_question
        else updated_question in
      ({| _questions := <[question_id := updated_question]> (_questions self);
          _source_file_map := _source_file_map self |},
       Ok updated_question)
    end
  end.

(** [add_questions]: the loop over [questions], [added_ids] being the list
    built so far.  An [add_question] that raises ends the loop with its
    exception; what the rounds before it stored stays stored. *)
Fixpoint add_questions_loop (self : QuestionManager)
    (questions : list (option Question)) (source_file : str) (added_ids : list str)
    : QuestionManager * result (list str) :=
  match questions with
  | [] => (self, Ok added_ids)
  | question :: rest =>
    match add_question self question source_file with
    | (self, Ok question_id) =>
      add_questions_loop self rest source_file (added_ids ++ [question_id])
    | (self, Raise e) => (self, Raise e)
    end
  end.

Definition add_questions (self : QuestionManager) (questions : list (option Question))
    (source_file : str) : QuestionManager * result (list str) :=
  add_questions_loop self questions source_file [].

(** [replace(question, selected=selected)] *)
Definition set_selected (b : bool) (q : Question) : Question :=
  {| qid := qid q; number := number q; question_text := question_text q;
     options := options q; correct_answers := correct_answers q;
     question_type := question_type q; explanation := explanation q;
     images := images q; needs_review := needs_review q; selected := b;
     metadata := metadata q |}.

Definition select_question (self : QuestionManager) (question_id : str)
    (selected : bool) : QuestionManager * bool :=
  match _questions self !! question_id with
  | None => (self, false)
  | Some question =>
    ({| _questions := <[question_id := set_selected selected question]> (_questions self);
        _source_file_map := _source_file_map self |}, true)
  end.

(** [select_all]: the loop [for qid in self._questions] assigns to keys the
    dict already has, one round per key; the rounds touch different keys,
    so the order in which the keys come does not show in the result. *)
Definition select_all (self : QuestionManager) (selected : bool) : QuestionManager :=
  {| _questions :=
       foldl (fun questions question_id =>
                match questions !! question_id with
                | Some question =>
                  <[question_id := set_selected selected question]> questions
                | None => questions
                end)
             (_questions self) (map_to_list (_questions self)).*1;
     _source_file_map := _source_file_map self |}.

(** [len([q for q in self._questions.values() if q.selected])] *)
Definition get_selected_count (self : QuestionManager) : nat :=
  length (List.filter selected (map_to_list (_questions self)).*2).

(** [count]: [len(self._questions)] *)
Definition count (self : QuestionManager) : nat := size (_questions self).

(** [clear] *)
Definition clear (self : QuestionManager) : QuestionManager :=
  {| _questions := ∅; _source_file_map := ∅ |}.

(** The method [contains]: [question_id in self._questions]. *)
Definition contains_question (self : QuestionManager) (question_id : str) : bool :=
  bool_decide (is_Some (_questions self !! question_id)).

(* ===================================================================== *)
(** ** batch_processor.py: the loops of class BatchProcessor *)
(* ===================================================================== *)

(** The loop of [process_single_file] over the spans of one document:
    a [parse_question] that raises is skipped.  [uuid4] lists the values the
    calls of [uuid.uuid4()] return, [drawn] counts the calls made so far; a
    call of [parse_question] draws one only after its guard has passed. *)
Fixpoint parse_blocks `{UnicodeData} (uuid4 : nat -> str) (drawn : nat)
    (question_blocks : list (str * str)) : list Question :=
  match question_blocks with
  | [] => []
  | (number, text_block) :: rest =>
    match parse_question (uuid4 drawn) text_block number with
    | Ok question => question :: parse_blocks uuid4 (S drawn) rest
    | Raise _ => parse_blocks uuid4 drawn rest
    end
  end.

(** The loop of [process_files] that hands the questions of one file to the
    manager: an [add_question] that raises is ignored. *)
Definition store_questions (question_manager : QuestionManager)
    (questions : list Question) (file_path : str) : QuestionManager :=
  foldl (fun question_manager question =>
           (add_question question_manager (Some question) file_path).1)
        question_manager questions.

(* ===================================================================== *)
(** ** ui_controller.py: the loading loop and the statistics of UIController *)
(* ===================================================================== *)




(** [get_all_questions] of the manager: [list(self._questions.values())].
    Python lists the values in the order of insertion, which the map of
    the model does not record; the list here holds the same values in the
    order of the map, and is used only for what does not depend on the
    order. *)
Definition get_all_questions (self : QuestionManager) : list Question :=
  (map_to_list (_questions self)).*2.

(** The dict [get_statistics] returns, by its keys. *)
Record statistics := {
  st_total : nat;
  st_single_choice : nat;
  st_multiple_choice : nat;
  st_unknown : nat;
  st_needs_review : nat
}.

Definition get_statistics (question_manager : QuestionManager) : statistics :=
  let all_questions := get_all_questions question_manager in
  let single_count :=
    length (List.filter (fun q => bool_decide (question_type q = SINGLE_CHOICE))
                        all_questions) in
  let multiple_count :=
    length (List.filter (fun q => bool_decide (question_type q = MULTIPLE_CHOICE))
                        all_questions) in
  let unknown_count :=
    length (List.filter (fun q => bool_decide (question_type q = UNKNOWN))
                        all_questions) in
  let review_count := length (List.filter needs_review all_questions) in
  {| st_total := length all_questions;
     st_single_choice := single_count;
     st_multiple_choice := multiple_count;
     st_unknown := unknown_count;
     st_needs_review := review_count |}.

(* ===================================================================== *)
(** ** Vocabulary of the properties *)
(* ===================================================================== *)

(** A whitespace-only string (the empty one included). *)
Definition whitespace_only (s : str) : bool := forallb isspace s.

(** A numeral character of the class [一二三四五六七八九十百]. *)
Definition is_cjk_numeral (c : char) : bool :=
  existsb (N.eqb c) (u "一二三四五六七八九十百").

(** A numeral token: one or more numeral characters, which one newline may
    follow at the very end (without MULTILINE the [$] of a pattern also
    matches before a final newline). *)
Fixpoint numeral_rest (s : str) : bool :=
  match s with
  | [] => true
  | c :: t => if is_cjk_numeral c then numeral_rest t else (c =? NL) && is_empty t
  end.

Definition numeral_token (number : str) : bool :=
  match number with
  | [] => false
  | c :: t => is_cjk_numeral c && numeral_rest t
  end.

(** The value of a numeral read by place value: a unit character multiplies
    the digit before it, or 1 when no digit stands before it, and the
    products add up with a last digit that no unit follows.  [preceding] is
    the digit read last and not yet used, 0 when there is none. *)
Fixpoint place_value (preceding : N) (s : str) : N :=
  match s with
  | [] => preceding
  | ch :: s1 =>
    match dict_get ch chinese_digits with
    | Some d => place_value d s1
    | None =>
      match dict_get ch chinese_units with
      | Some unit => (if preceding =? 0 then 1 else preceding) * unit + place_value 0 s1
      | None => place_value preceding s1
      end
    end
  end.

(** A separator the answer-string parser removes. *)
Definition is_separator (c : char) : bool :=
  existsb (N.eqb c) (u "、,， ").

(** A letter of A to J. *)
Definition is_answer_letter (c : char) : bool := (65 <=? c) && (c <=? 74).

(** The answer list whose entries are the letters of [S]. *)
Definition letters (S : list char) : list str := map (fun c => [c]) S.

(** The forward pass over the sorted matches in the words of the
    specification: a match is kept when its number is not the number of a
    match kept before and its offset is at least 20 past the offset of the
    match kept last, if there is one. *)
Definition keeps (kept : list (str * nat)) (b : str * nat) : bool :=
  negb (bool_decide (b.1 ∈ kept.*1))
  && match last kept with
     | Some a => (a.2 + 20 <=? b.2)%nat
     | None => true
     end.

Definition forward_pass (boundaries : list (str * nat)) : list (str * nat) :=
  foldl (fun kept b => if keeps kept b then kept ++ [b] else kept) [] boundaries.

(** The shape [_validate_updates] asks of an update: it is not empty and
    every field it supplies has the type of that field. *)
Definition field_ok (updates : gmap str pyval) (key : str) (ok : pyval -> bool) : bool :=
  match updates !! key with
  | Some v => ok v
  | None => true
  end.

Definition is_list_of (elem_ok : pyval -> bool) (v : pyval) : bool :=
  match v with
  | PList l => forallb elem_ok l
  | _ => false
  end.

Definition valid_updates (updates : gmap str pyval) : bool :=
  negb (bool_decide (updates = ∅))
  && field_ok updates (u "question_text") is_str
  && field_ok updates (u "options") (is_list_of is_option)
  && field_ok updates (u "correct_answers") (is_list_of is_str)
  && field_ok updates (u "question_type") is_question_type
  && field_ok updates (u "needs_review") is_bool
  && field_ok updates (u "metadata") is_dict
  && field_ok updates (u "number") is_str.

(** The type that goes with a number of correct answers. *)
Definition type_by_count (n : nat) : QuestionType :=
  match n with
  | O => UNKNOWN
  | S O => SINGLE_CHOICE
  | _ => MULTIPLE_CHOICE
  end.

(** A string of one letter of A to J, the form of an answer and of an option
    label. *)
Definition single_letter (a : str) : bool :=
  match a with
  | [c] => is_answer_letter c
  | _ => false
  end.

(** A string that neither starts nor ends with whitespace (the empty string
    included). *)
Definition trimmed (s : str) : bool :=
  match s with
  | [] => true
  | c :: _ => negb (isspace c)
  end
  && match last s with
     | Some c => negb (isspace c)
     | None => true
     end.

(** The form of an extracted option: a label of one letter of A to J, a
    content that is not empty and carries no whitespace around it, and no
    images. *)
Definition well_formed_option (o : Option) : Prop :=
  single_letter (label o) = true /\ content o <> []
  /\ trimmed (content o) = true /\ option_images o = [].

(** The spans [parse_question] accepts. *)
Definition non_blank_blocks (question_blocks : list (str * str)) : list (str * str) :=
  List.filter (fun b => negb (whitespace_only b.2)) question_blocks.

(** The keys of the two dicts of a manager fit together: a question is
    stored under its own identity, which is not empty; a source is recorded
    only for a stored question, and is not empty. *)
Definition well_keyed (self : QuestionManager) : Prop :=
  map_Forall (fun k q => qid q = k /\ k <> []) (_questions self)
  /\ map_Forall (fun k source_file =>
                   is_Some (_questions self !! k) /\ source_file <> [])
                (_source_file_map self).

(** The keys of an update that [update_question] reads. *)
Definition update_keys : list str :=
  [u "question_text"; u "options"; u "correct_answers"; u "question_type";
   u "needs_review"; u "metadata"; u "number"].

(** The record [update_question] stores in place of [current] when the
    update is valid. *)
Definition updated_record (current : Question) (updates : gmap str pyval) : Question :=
  if has_key updates (u "correct_answers") && negb (has_key updates (u "question_type"))
  then _auto_update_question_type (replace_fields current updates)
  else replace_fields current updates.

(** The first question of a list that has the identity [k]. *)
Definition first_with_id (k : str) (questions : list Question) : option Question :=
  List.find (fun q => bool_decide (qid q = k)) questions.

(* ===================================================================== *)
(** ** Sample data *)
(* ===================================================================== *)

(** A Unicode database with no decimal digit beyond ASCII, for running the
    model on texts whose digits are ASCII. *)
Definition ascii_digits : UnicodeData := {| extra_decimal := fun _ => false |}.

(** A span for question 3 that states its answer in the loose form 答案C and
    also holds the answer-key entries of questions 1 and 2. *)
Definition span_with_two_entries : str :=
  u "1. 【答案】A" ++ [NL] ++ u "2. 【答案】B" ++ [NL] ++ u "答案C".

(** A stored multiple-choice question whose text carries the tag 【多选】. *)
Definition tagged_question : Question :=
  {| qid := u "q1"; number := u "1"; question_text := u "【多选】哪些是协议";
     options := []; correct_answers := [u "A"; u "B"];
     question_type := MULTIPLE_CHOICE; explanation := []; images := [];
     needs_review := false; selected := true; metadata := ∅ |}.

Definition tagged_manager : QuestionManager :=
  {| _questions := {[ u "q1" := tagged_question ]}; _source_file_map := ∅ |}.

(** The update that empties the answer list. *)
Definition clear_answers : gmap str pyval := {[ u "correct_answers" := PList [] ]}.

(** A document whose questions 1 and 3 state their answers inline and
    whose question 2 has its answer in a trailing answer-key entry. *)
Definition sample_document : str :=
  u "1. 什么是TCP？请选择正确的一项" ++ [NL] ++ u "A. 一种协议" ++ [NL]
  ++ u "B. 一种语言" ++ [NL] ++ u "【答案】A" ++ [NL]
  ++ u "2. 第二个问题是什么呢请回答" ++ [NL] ++ u "A. 甲" ++ [NL] ++ u "B. 乙" ++ [NL]
  ++ u "3. 第三个问题是什么呢请回答" ++ [NL] ++ u "A. 甲" ++ [NL] ++ u "B. 乙" ++ [NL]
  ++ u "【答案】A" ++ [NL]
  ++ u "答案部分如下所示，请核对后再看" ++ [NL]
  ++ u "2. 【正确答案】 B".

(** The span of question 2 of [sample_document] before the backfill. *)
Definition sample_span_2 : str :=
  u "2. 第二个问题是什么呢请回答" ++ [NL] ++ u "A. 甲" ++ [NL] ++ u "B. 乙".

(** The span of the specification's first assembler example. *)
Definition tcp_span : str :=
  u "1. 什么是TCP？" ++ [NL] ++ u "A. 一种协议" ++ [NL] ++ u "B. 一种语言" ++ [NL]
  ++ u "【答案】A".

(** The Question the specification expects for [tcp_span], under the
    identity [id]. *)
Definition tcp_question : Question :=
  {| qid := u "id"; number := u "1"; question_text := u "什么是TCP？";
     options := [ {| label := u "A"; content := u "一种协议"; option_images := [] |};
                  {| label := u "B"; content := u "一种语言"; option_images := [] |} ];
     correct_answers := [u "A"]; question_type := SINGLE_CHOICE;
     explanation := []; images := []; needs_review := false; selected := true;
     metadata := ∅ |}.

(** [tagged_question] after [clear_answers], as the manager stores it. *)
Definition cleared_question : Question :=
  {| qid := u "q1"; number := u "1"; question_text := u "【多选】哪些是协议";
     options := []; correct_answers := [];
     question_type := UNKNOWN; explanation := []; images := [];
     needs_review := false; selected := true; metadata := ∅ |}.

Definition cleared_manager : QuestionManager :=
  {| _questions := {[ u "q1" := cleared_question ]}; _source_file_map := ∅ |}.

(** An update of the number, and the same update with an entry under a key
    the manager does not read. *)
Definition number_update : gmap str pyval := {[ u "number" := PStr (u "5") ]}.

Definition number_update_with_id : gmap str pyval :=
  <[ u "id" := PStr (u "q9") ]> number_update.

(** The exception of [add_question] for a second question under q1. *)
Definition duplicate_q1 : exn := ValidationError (u "题目ID 'q1' 已存在").

(** Identities for the calls of [uuid.uuid4()], one for each call. *)
Definition sample_uuid4 (n : nat) : str := u "id-" ++ str_of_int (N.of_nat n).

(** The span of [tcp_span] under the number 1 and a blank span under 2. *)
Definition sample_blocks : list (str * str) := [(u "1", tcp_span); (u "2", u "  ")].

(* ===================================================================== *)
(** ** Properties *)
(* ===================================================================== *)

(** *** Strings *)

Lemma lstrip_nil_iff (s : str) : lstrip s = [] <-> whitespace_only s = true.
Proof.
  induction s as [|c t IH]; simpl; [done|].
  destruct (isspace c); simpl; [done|]. split; discriminate.
Qed.

Lemma whitespace_only_app (a b : str) :
  whitespace_only (a ++ b) = whitespace_only a && whitespace_only b.
Proof. apply forallb_app. Qed.

Lemma whitespace_only_reverse (s : str) :
  whitespace_only (reverse s) = whitespace_only s.
Proof.
  induction s as [|c t IH]; [done|].
  rewrite reverse_cons, whitespace_only_app, IH. simpl.
  destruct (isspace c), (whitespace_only t); done.
Qed.

Lemma lstrip_suffix (s : str) :
  exists pre, s = pre ++ lstrip s /\ whitespace_only pre = true.
Proof.
  induction s as [|c t (pre & Ht & Hpre)]; simpl.
  - by exists [].
  - destruct (isspace c) eqn:Hc.
    + exists (c :: pre). simpl. rewrite Hc, Hpre. split; [by f_equal|done].
    + by exists [].
Qed.

(** [not text or not text.strip()] holds exactly of the whitespace-only
    strings. *)
Lemma blank_whitespace_only (text : str) : blank text = whitespace_only text.
Proof.
  unfold blank, strip, rstrip.
  destruct (whitespace_only text) eqn:Hw.
  - apply lstrip_nil_iff in Hw. rewrite Hw. by destruct text.
  - destruct (lstrip_suffix text) as (pre & Heq & Hpre).
    assert (whitespace_only (lstrip text) = false) as Hl.
    { rewrite Heq, whitespace_only_app, Hpre in Hw. done. }
    destruct (lstrip_suffix (reverse (lstrip text))) as (pre2 & Heq2 & Hpre2).
    assert (is_empty text = false) as -> by (by destruct text).
    rewrite orb_false_l.
    destruct (lstrip (reverse (lstrip text))) as [|d r] eqn:Hr.
    + rewrite app_nil_r in Heq2.
      rewrite <- whitespace_only_reverse, Heq2, Hpre2 in Hl. done.
    + rewrite reverse_cons. by destruct (reverse r).
Qed.

(** *** The matcher *)

Arguments utf8 : simpl never.
Arguments utf8_char : simpl never.
Arguments isspace : simpl never.
Arguments isdecimal : simpl never.
Arguments set_has : simpl never.
Arguments cjk_numeral : simpl never.
Arguments is_cjk_numeral : simpl never.

Section MatcherFacts.
Context `{UnicodeData}.

Lemma set_has_chars (fl : flags) (s : str) (c : char) :
  IGNORECASE fl = false -> set_has fl (chars s) c = existsb (N.eqb c) s.
Proof.
  intros Hfl. unfold set_has. rewrite Hfl. simpl. rewrite orb_false_r.
  unfold chars. induction s as [|d t IH]; simpl; [done|]. by rewrite IH.
Qed.

(** A greedy repetition over a text made of characters it accepts runs to
    the end of the text first. *)
Lemma rep_loop_greedy_to_end (ok : char -> bool) cp (k : mstate -> option mstate)
    (p : nat) (pv : option char) (s : str) :
  forallb ok s = true ->
  (forall st, rest st = [] -> is_Some (k st)) ->
  is_Some (rep_loop ok true cp k p pv s).
Proof.
  intros Hall Hk. revert p pv.
  induction s as [|c t IH]; intros p pv; simpl.
  - by apply Hk.
  - simpl in Hall. apply andb_prop in Hall as [Hc Ht]. rewrite Hc.
    destruct (IH Ht (S p) (Some c)) as [r Hr]. by rewrite Hr.
Qed.

End MatcherFacts.

(** *** The numeral normalizer *)

Section Numerals.
Context `{UnicodeData}.

Lemma dict_get_In {K V : Type} `{EqDecision K} (key : K) (d : list (K * V)) (v : V) :
  dict_get key d = Some v -> In (key, v) d.
Proof.
  induction d as [|[k0 v0] d1 IH]; simpl; [done|].
  case_decide as Hk; [|by right; apply IH].
  intros [= ->]. left. by rewrite Hk.
Qed.

Lemma table_keys_cjk (number v : str) :
  dict_get number CHINESE_TO_ARABIC = Some v ->
  exists c t, number = c :: t /\ is_cjk_numeral c = true.
Proof.
  intros Hv. apply dict_get_In in Hv. vm_compute in Hv.
  repeat (destruct Hv as [Hv|Hv];
          [injection Hv as <- _; eexists _, _; split; [reflexivity | by vm_compute] |]).
  done.
Qed.

Lemma ascii_digit_not_cjk (c : char) : ascii_digit c = true -> is_cjk_numeral c = false.
Proof.
  unfold ascii_digit. intros Hc.
  apply andb_prop in Hc as [_ Hc]. apply N.leb_le in Hc.
  unfold is_cjk_numeral. cbn [existsb].
  repeat (rewrite (proj2 (N.eqb_neq c _)) by lia). reflexivity.
Qed.

Lemma set_has_cjk (fl : flags) (c : char) :
  IGNORECASE fl = false -> set_has fl cjk_numeral c = is_cjk_numeral c.
Proof. intros Hfl. exact (set_has_chars fl _ c Hfl). Qed.

Lemma match_cjk_numeral_only_fails (number : str) :
  match number with [] => True | c :: _ => is_cjk_numeral c = false end ->
  re.match_ NOFLAG cjk_numeral_only number = None.
Proof.
  intros Hn. unfold re.match_, match_at, cjk_numeral_only. simpl.
  destruct number as [|c t]; simpl; [done|].
  rewrite (set_has_cjk NOFLAG c eq_refl). by rewrite Hn.
Qed.

Lemma match_cjk_numeral_only (number : str) :
  number <> [] -> forallb is_cjk_numeral number = true ->
  is_Some (re.match_ NOFLAG cjk_numeral_only number).
Proof.
  intros Hne Hall. unfold re.match_, match_at, cjk_numeral_only. simpl.
  destruct number as [|c t]; [done|]. simpl in *.
  apply andb_prop in Hall as [Hc Ht].
  rewrite (set_has_cjk NOFLAG c eq_refl), Hc.
  unfold advance. simpl.
  match goal with
  | |- is_Some (match rep_loop ?ok true ?cp ?k ?p ?pv t with _ => _ end) =>
    destruct (rep_loop_greedy_to_end ok cp k p pv t) as [r Hr]
  end.
  - rewrite <- Ht. clear. induction t as [|d t IH]; [done|].
    cbn [forallb atom_ok]. by rewrite (set_has_cjk NOFLAG d eq_refl), IH.
  - intros st Hst. unfold at_eol. rewrite Hst. simpl. by eexists.
  - rewrite Hr. by eexists.
Qed.

(** The loop of [_parse_chinese_number] computes the place value. *)
Lemma foldl_parse_step (s : str) (result temp : N) :
  (foldl parse_step (result, temp) s).1 + (foldl parse_step (result, temp) s).2
  = result + place_value temp s.
Proof.
  revert result temp. induction s as [|ch s1 IH]; intros result temp.
  - reflexivity.
  - cbn [foldl place_value].
    destruct (dict_get ch chinese_digits) as [d|] eqn:Hd.
    + replace (parse_step (result, temp) ch) with (result, d)
        by (unfold parse_step; by rewrite Hd).
      apply IH.
    + destruct (dict_get ch chinese_units) as [unit|] eqn:Hu.
      * replace (parse_step (result, temp) ch)
          with (result + (if temp =? 0 then 1 else temp) * unit, 0)
          by (unfold parse_step; by rewrite Hd, Hu).
        rewrite IH. lia.
      * replace (parse_step (result, temp) ch) with (result, temp)
          by (unfold parse_step; by rewrite Hd, Hu).
        apply IH.
Qed.

Lemma parse_chinese_number_place_value (chinese : str) :
  _parse_chinese_number chinese =
  if 0 <? place_value 0 chinese then place_value 0 chinese else 1.
Proof.
  unfold _parse_chinese_number.
  pose proof (foldl_parse_step chinese 0 0) as Hf.
  destruct (foldl parse_step (0, 0) chinese) as [r t].
  cbn [fst snd] in Hf. rewrite N.add_0_l in Hf. by rewrite Hf.
Qed.

(** Every character of the numeral class is a positive digit or a unit. *)
Lemma cjk_numeral_value (ch : char) :
  is_cjk_numeral ch = true ->
  (exists d, dict_get ch chinese_digits = Some d /\ 0 < d)
  \/ (dict_get ch chinese_digits = None
      /\ exists unit, dict_get ch chinese_units = Some unit /\ 0 < unit).
Proof.
  unfold is_cjk_numeral. cbn [existsb]. rewrite !orb_true_iff, !N.eqb_eq.
  intros [Hc|[Hc|[Hc|[Hc|[Hc|[Hc|[Hc|[Hc|[Hc|[Hc|[Hc|Hc]]]]]]]]]]];
    try discriminate; subst ch;
    first [ left; eexists; split; [by vm_compute | lia]
          | right; split; [by vm_compute | eexists; split; [by vm_compute | lia]] ].
Qed.

(** A token of numeral characters has a positive place value, so the
    default 1 of the parser is not reached from [_convert_chinese_number]. *)
Lemma numeral_token_positive (s : str) (preceding : N) :
  forallb is_cjk_numeral s = true ->
  0 < preceding \/ s <> [] ->
  0 < place_value preceding s.
Proof.
  revert preceding. induction s as [|ch s1 IH]; intros preceding Hall Hpos.
  - cbn [place_value]. by destruct Hpos.
  - cbn [forallb] in Hall. apply andb_prop in Hall as [Hch Hs1].
    cbn [place_value].
    destruct (cjk_numeral_value ch Hch) as [(d & -> & Hd)|(-> & unit & -> & Hu)].
    + apply IH; [exact Hs1 | by left].
    + destruct (preceding =? 0) eqn:Hz; [lia|]. apply N.eqb_neq in Hz. nia.
Qed.

(** A greedy repetition of numeral characters followed by [$]. *)
Lemma rep_loop_numeral_rest (ok : char -> bool) cp (k : mstate -> option mstate)
    (p : nat) (pv : option char) (s : str) :
  (forall c, ok c = is_cjk_numeral c) ->
  (forall st, is_Some (k st) <-> at_eol NOFLAG st = true) ->
  is_Some (rep_loop ok true cp k p pv s) <-> numeral_rest s = true.
Proof.
  intros Hok Hk. revert p pv. induction s as [|c t IH]; intros p pv.
  - cbn [rep_loop numeral_rest]. rewrite Hk. by cbn.
  - cbn [rep_loop numeral_rest]. rewrite Hok.
    destruct (is_cjk_numeral c) eqn:Hc.
    + specialize (IH (S p) (Some c)).
      destruct (rep_loop ok true cp k (S p) (Some c) t) as [r|]; [exact IH|].
      rewrite Hk, <- IH. unfold at_eol. cbn [rest].
      assert ((c =? NL) = false) as ->.
      { apply N.eqb_neq. intros ->. by vm_compute in Hc. }
      split; [done|]. by intros [? ?].
    + rewrite Hk. unfold at_eol. cbn [rest MULTILINE NOFLAG orb]. done.
Qed.

(** [re.match(r'^[一二三四五六七八九十百]+$', number)] succeeds exactly on the
    numeral tokens. *)
Lemma match_cjk_numeral_only_iff (number : str) :
  is_Some (re.match_ NOFLAG cjk_numeral_only number) <-> numeral_token number = true.
Proof.
  unfold re.match_, match_at, cjk_numeral_only. simpl.
  destruct number as [|c t]; simpl; [split; [by intros [? ?]|done]|].
  rewrite (set_has_cjk NOFLAG c eq_refl).
  destruct (is_cjk_numeral c); [|split; [by intros [? ?]|done]].
  unfold advance. simpl.
  match goal with
  | |- is_Some (match rep_loop ?ok true ?cp ?k ?p ?pv t with _ => _ end) <-> _ =>
    pose proof (rep_loop_numeral_rest ok cp k p pv t) as Hloop;
      destruct (rep_loop ok true cp k p pv t) as [r|]
  end.
  - rewrite <- Hloop.
    + split; intros _; by eexists.
    + intros d. apply (set_has_cjk NOFLAG d eq_refl).
    + intros st. destruct (at_eol NOFLAG st); split; first [done | by eexists | by intros [? ?]].
  - rewrite <- Hloop.
    + split; by intros [? ?].
    + intros d. apply (set_has_cjk NOFLAG d eq_refl).
    + intros st. destruct (at_eol NOFLAG st); split; first [done | by eexists | by intros [? ?]].
Qed.

Lemma numeral_rest_positive (s : str) (preceding : N) :
  numeral_rest s = true -> 0 < preceding -> 0 < place_value preceding s.
Proof.
  revert preceding. induction s as [|ch s1 IH]; intros preceding Hs Hpos; [done|].
  cbn [numeral_rest] in Hs. cbn [place_value].
  destruct (is_cjk_numeral ch) eqn:Hch.
  - destruct (cjk_numeral_value ch Hch) as [(d & -> & Hd)|(-> & unit & -> & Hu)].
    + by apply IH.
    + destruct (preceding =? 0) eqn:Hz; [lia|]. apply N.eqb_neq in Hz. nia.
  - apply andb_prop in Hs as [Hnl Ht]. apply N.eqb_eq in Hnl as ->.
    destruct s1; [|done].
    assert (dict_get NL chinese_digits = None) as -> by (by vm_compute).
    assert (dict_get NL chinese_units = None) as -> by (by vm_compute).
    exact Hpos.
Qed.

(** A numeral token has a positive place value. *)
Lemma numeral_token_place_value (number : str) :
  numeral_token number = true -> 0 < place_value 0 number.
Proof.
  destruct number as [|ch s1]; [done|]. cbn [numeral_token]. intros Hn.
  apply andb_prop in Hn as [Hch Hs1]. cbn [place_value].
  destruct (cjk_numeral_value ch Hch) as [(d & -> & Hd)|(-> & unit & -> & Hu)].
  - by apply numeral_rest_positive.
  - change (if 0 =? 0 then 1 else 0) with 1. lia.
Qed.

(** C9, as the code has it -- The Numeral Normalizer is a total function
    (nothing in it can raise) such that: a token listed in the table
    CHINESE_TO_ARABIC is mapped to its table entry; any other numeral token
    (one or more of the characters 一二三四五六七八九十百, which the pattern
    lets one final newline follow) is mapped to the decimal string of its
    place value, where a unit character multiplies the digit before it and
    counts once when no digit stands before it, and this place value is
    always positive; and every other token is returned unchanged, among
    them the tokens of ASCII digits, the empty token and every token that
    does not start with a numeral character.  The default 1 belongs to the
    place-value parser alone, which replaces a total of zero by 1 when it
    is called directly; the normalizer never calls it on a token whose
    total is zero, so an unparsable or all-zero token is not turned into
    "1". *)
Theorem numeral_normalizer_total :
  (forall number v : str,
      dict_get number CHINESE_TO_ARABIC = Some v ->
      _convert_chinese_number number = v)
  /\ (forall number : str,
      dict_get number CHINESE_TO_ARABIC = None ->
      numeral_token number = true ->
      _convert_chinese_number number = str_of_int (place_value 0 number)
      /\ 0 < place_value 0 number)
  /\ (forall number : str,
      dict_get number CHINESE_TO_ARABIC = None ->
      numeral_token number = false ->
      _convert_chinese_number number = number)
  /\ (forall number : str,
      forallb ascii_digit number = true ->
      _convert_chinese_number number = number)
  /\ (forall (c : char) (rest : str),
      is_cjk_numeral c = false ->
      _convert_chinese_number (c :: rest) = c :: rest)
  /\ _convert_chinese_number [] = []
  /\ (forall (result temp : N) (ch : char) (unit : N),
      dict_get ch chinese_digits = None ->
      dict_get ch chinese_units = Some unit ->
      parse_step (result, temp) ch
      = (result + (if temp =? 0 then 1 else temp) * unit, 0))
  /\ (forall chinese : str,
      _parse_chinese_number chinese
      = if 0 <? place_value 0 chinese then place_value 0 chinese else 1)
  /\ (forall chinese : str,
      1 <= _parse_chinese_number chinese
      /\ (place_value 0 chinese = 0 ->
          str_of_int (_parse_chinese_number chinese) = u "1")).
Proof.
  assert (forall number : str,
             match number with [] => True | c :: _ => is_cjk_numeral c = false end ->
             _convert_chinese_number number = number) as Hpass.
  { intros number Hc. unfold _convert_chinese_number.
    destruct (dict_get number CHINESE_TO_ARABIC) as [v|] eqn:Hv.
    - apply table_keys_cjk in Hv as (c & t & -> & Hcjk). congruence.
    - by rewrite (match_cjk_numeral_only_fails _ Hc). }
  split; [|split; [|split; [|split; [|split; [|split; [|split; [|split]]]]]]].
  - intros number v Hv. unfold _convert_chinese_number. by rewrite Hv.
  - intros number Hv Hn. pose proof (numeral_token_place_value number Hn) as Hpos.
    split; [|exact Hpos].
    unfold _convert_chinese_number. rewrite Hv.
    apply match_cjk_numeral_only_iff in Hn as [m ->].
    rewrite parse_chinese_number_place_value.
    by rewrite (proj2 (N.ltb_lt _ _) Hpos).
  - intros number Hv Hn. unfold _convert_chinese_number. rewrite Hv.
    destruct (re.match_ NOFLAG cjk_numeral_only number) as [m|] eqn:Hm; [|done].
    assert (numeral_token number = true) as Hyes
      by (apply match_cjk_numeral_only_iff; rewrite Hm; by eexists).
    congruence.
  - intros number Hd. apply Hpass.
    destruct number as [|c t]; [done|]. cbn [forallb] in Hd.
    apply andb_prop in Hd as [Hd _]. by apply ascii_digit_not_cjk.
  - intros c rest Hc. by apply Hpass.
  - by apply Hpass.
  - intros result temp ch unit Hd Hu. unfold parse_step. by rewrite Hd, Hu.
  - apply parse_chinese_number_place_value.
  - intros chinese. rewrite parse_chinese_number_place_value.
    destruct (0 <? place_value 0 chinese) eqn:Hp.
    + apply N.ltb_lt in Hp. split; [lia|]. intros Hz. lia.
    + split; [lia|]. done.
Qed.

End Numerals.

(** *** The answer-string parser *)

Lemma filter_filter {A : Type} (p q : A -> bool) (l : list A) :
  List.filter p (List.filter q l) = List.filter (fun x => q x && p x) l.
Proof.
  induction l as [|x t IH]; [done|]. cbn [List.filter].
  destruct (q x); cbn [andb List.filter]; [destruct (p x)|]; by rewrite IH.
Qed.

Lemma clean_answer_string_filter (s : str) :
  clean_answer_string s = List.filter (fun c => negb (is_separator c)) s.
Proof.
  unfold clean_answer_string, remove_char. rewrite !filter_filter.
  apply List.filter_ext. intros c. unfold is_separator. cbn [existsb].
  destruct (c =? 12289), (c =? 44), (c =? 65292), (c =? 32); reflexivity.
Qed.

Lemma answer_letter_cases (c : char) :
  is_answer_letter c = true ->
  In c [65; 66; 67; 68; 69; 70; 71; 72; 73; 74].
Proof.
  unfold is_answer_letter. intros Hc. apply andb_prop in Hc as [Hlo Hhi].
  apply N.leb_le in Hlo, Hhi. cbn [In].
  assert (c = 65 \/ c = 66 \/ c = 67 \/ c = 68 \/ c = 69 \/ c = 70 \/ c = 71
          \/ c = 72 \/ c = 73 \/ c = 74) as Hcases by lia.
  intuition auto.
Qed.

Lemma answer_letter_not_separator (c : char) :
  is_answer_letter c = true -> is_separator c = false.
Proof.
  intros Hc. apply answer_letter_cases in Hc. cbn [In] in Hc.
  repeat (destruct Hc as [<-|Hc]; [reflexivity|]). done.
Qed.

Lemma answer_of_letter (c : char) :
  is_answer_letter c = true -> answer_of_char c = [[c]].
Proof.
  intros Hc. apply answer_letter_cases in Hc. cbn [In] in Hc.
  repeat (destruct Hc as [<-|Hc]; [by vm_compute|]). done.
Qed.

Lemma clean_join_letters (sep : str) (S : list char) :
  forallb is_separator sep = true ->
  forallb is_answer_letter S = true ->
  clean_answer_string (join sep (letters S)) = S.
Proof.
  intros Hsep HS. rewrite clean_answer_string_filter.
  assert (List.filter (fun c => negb (is_separator c)) sep = []) as Hclean.
  { clear HS. induction sep as [|d t IH]; [done|]. cbn [forallb] in Hsep.
    apply andb_prop in Hsep as [Hd Ht]. cbn [List.filter]. rewrite Hd. by apply IH. }
  induction S as [|c S1 IH]; [done|].
  cbn [forallb] in HS. apply andb_prop in HS as [Hc HS1].
  pose proof (answer_letter_not_separator c Hc) as Hns.
  destruct S1 as [|c1 S2].
  - cbn [letters map join List.filter]. by rewrite Hns.
  - change (join sep (letters (c :: c1 :: S2)))
      with ([c] ++ sep ++ join sep (letters (c1 :: S2))).
    rewrite !List.filter_app, Hclean, (IH HS1). cbn [List.filter]. by rewrite Hns.
Qed.

Lemma answers_of_letters (S : list char) :
  forallb is_answer_letter S = true ->
  concat (map answer_of_char S) = letters S.
Proof.
  induction S as [|c S1 IH]; [done|]. cbn [forallb]. intros HS.
  apply andb_prop in HS as [Hc HS1]. cbn [map concat letters].
  rewrite (answer_of_letter c Hc), (IH HS1). reflexivity.
Qed.

Lemma unique_answers_nodup (seen : gset str) (answers : list str) :
  NoDup answers -> (forall a, a ∈ answers -> a ∉ seen) ->
  unique_answers seen answers = answers.
Proof.
  intros Hnd. revert seen. induction Hnd as [|a l Hnotin Hnd IH]; intros seen Hseen.
  - reflexivity.
  - cbn [unique_answers]. rewrite bool_decide_eq_false_2 by (apply Hseen; left).
    f_equal. apply IH. intros b Hb. specialize (Hseen b (list_elem_of_further _ _ _ Hb)).
    set_solver.
Qed.

Lemma NoDup_letters (S : list char) : NoDup S -> NoDup (letters S).
Proof.
  induction 1 as [|c l Hnotin Hnd IH]; [constructor|].
  cbn [letters map]. constructor; [|exact IH].
  intros Hin. apply Hnotin. clear -Hin. induction l as [|d t IHl].
  - by apply not_elem_of_nil in Hin.
  - cbn [letters map] in Hin. apply elem_of_cons in Hin as [Heq|Hin].
    + injection Heq as ->. left.
    + right. by apply IHl.
Qed.

(** C2 -- Round trip of the answer-string parser: for every duplicate-free
    list S of letters of A..J and every separator string made of the
    characters 、 , ， and space (the empty string included), parsing the
    letters of S joined by that separator returns exactly the letters of S,
    in their order; in particular the result has no duplicates. *)
Theorem parse_answer_string_roundtrip (S : list char) (sep : str) :
  NoDup S ->
  forallb is_answer_letter S = true ->
  forallb is_separator sep = true ->
  _parse_answer_string (join sep (letters S)) = letters S
  /\ NoDup (_parse_answer_string (join sep (letters S))).
Proof.
  intros Hnd HS Hsep.
  assert (_parse_answer_string (join sep (letters S)) = letters S) as Heq.
  { unfold _parse_answer_string.
    rewrite (clean_join_letters sep S Hsep HS), (answers_of_letters S HS).
    apply unique_answers_nodup; [by apply NoDup_letters | set_solver]. }
  split; [exact Heq|]. rewrite Heq. by apply NoDup_letters.
Qed.

(** *** The boundary detector *)

Lemma insert_by_pos_perm (b : str * nat) (l : list (str * nat)) :
  insert_by_pos b l ≡ₚ b :: l.
Proof.
  induction l as [|b1 l1 IH]; cbn [insert_by_pos]; [done|].
  destruct (b.2 <=? b1.2)%nat; [done|]. rewrite IH. apply Permutation_swap.
Qed.

Lemma sort_by_pos_perm (l : list (str * nat)) : sort_by_pos l ≡ₚ l.
Proof.
  unfold sort_by_pos. induction l as [|b l1 IH]; cbn [foldr]; [done|].
  by rewrite insert_by_pos_perm, IH.
Qed.

Lemma insert_by_pos_sorted (b : str * nat) (l : list (str * nat)) :
  StronglySorted (fun x y => (x.2 <= y.2)%nat) l ->
  StronglySorted (fun x y => (x.2 <= y.2)%nat) (insert_by_pos b l).
Proof.
  induction 1 as [|b1 l1 Hs IH Hall]; cbn [insert_by_pos].
  - repeat constructor.
  - destruct (b.2 <=? b1.2)%nat eqn:Hle.
    + apply Nat.leb_le in Hle. constructor; [by constructor|].
      constructor; [done|]. eapply Forall_impl; [exact Hall|].
      intros y Hy. simpl in *. lia.
    + apply Nat.leb_gt in Hle. constructor; [exact IH|].
      rewrite insert_by_pos_perm. constructor; [lia | exact Hall].
Qed.

Lemma sort_by_pos_sorted (l : list (str * nat)) :
  StronglySorted (fun x y => (x.2 <= y.2)%nat) (sort_by_pos l).
Proof.
  unfold sort_by_pos. induction l as [|b l1 IH]; cbn [foldr]; [constructor|].
  by apply insert_by_pos_sorted.
Qed.

(** What the pass appends from a state [(seen_numbers, last_pos)] on: new
    numbers only, each at least 20 past the one before, the first at least
    20 past [last_pos]. *)
Lemma unique_pass_from (seen : gset str) (last_pos : Z) (bs : list (str * nat)) :
  Forall (fun b => (b.1 ∉ seen) /\ (last_pos + 20 <= Z.of_nat b.2)%Z)
         (unique_pass seen last_pos bs)
  /\ StronglySorted (fun x y => (x.2 + 20 <= y.2)%nat) (unique_pass seen last_pos bs)
  /\ NoDup (unique_pass seen last_pos bs).*1.
Proof.
  revert seen last_pos. induction bs as [|[number pos] bs IH]; intros seen last_pos.
  - cbn [unique_pass]. split; [constructor|]. split; constructor.
  - cbn [unique_pass].
    destruct ((last_pos + 20 <=? Z.of_nat pos)%Z
              && negb (bool_decide (number ∈ seen))) eqn:Hc; [|apply IH].
    apply andb_prop in Hc as [Hpos Hnew]. apply Z.leb_le in Hpos.
    apply negb_true_iff, bool_decide_eq_false in Hnew.
    destruct (IH ({[number]} ∪ seen) (Z.of_nat pos)) as (Hall & Hsorted & Hnodup).
    split; [|split].
    + constructor; [done|]. eapply Forall_impl; [exact Hall|].
      intros b [Hb1 Hb2]. cbn [snd] in *. split; [set_solver | lia].
    + constructor; [exact Hsorted|]. eapply Forall_impl; [exact Hall|].
      intros b [_ Hb2]. cbn [snd] in *. lia.
    + cbn [fmap list_fmap fst]. constructor; [|exact Hnodup].
      intros Hin. apply list_elem_of_fmap in Hin as (b & Hb1 & Hb).
      rewrite Forall_forall in Hall. destruct (Hall b Hb) as [Hnot _].
      apply Hnot. rewrite <- Hb1. set_solver.
Qed.

(** The state of the source's pass is a summary of what it has kept: the
    pass is the forward pass of the specification. *)
Lemma unique_pass_forward (bs kept : list (str * nat)) (seen : gset str) (last_pos : Z) :
  (forall n, n ∈ seen <-> n ∈ kept.*1) ->
  last_pos = match last kept with Some a => Z.of_nat a.2 | None => (-100)%Z end ->
  kept ++ unique_pass seen last_pos bs
  = foldl (fun kept b => if keeps kept b then kept ++ [b] else kept) kept bs.
Proof.
  revert kept seen last_pos.
  induction bs as [|[number pos] bs IH]; intros kept seen last_pos Hseen Hlast.
  - cbn [unique_pass foldl]. apply app_nil_r.
  - cbn [unique_pass foldl].
    assert ((last_pos + 20 <=? Z.of_nat pos)%Z && negb (bool_decide (number ∈ seen))
            = keeps kept (number, pos)) as ->.
    { unfold keeps. cbn [fst snd]. rewrite andb_comm. f_equal.
      - f_equal. apply bool_decide_ext, Hseen.
      - subst last_pos. destruct (last kept) as [a|].
        + destruct (a.2 + 20 <=? pos)%nat eqn:Hle.
          * apply Nat.leb_le in Hle. apply Z.leb_le. lia.
          * apply Nat.leb_gt in Hle. apply Z.leb_gt. lia.
        + apply Z.leb_le. lia. }
    destruct (keeps kept (number, pos)).
    + rewrite <- (IH (kept ++ [(number, pos)]) ({[number]} ∪ seen) (Z.of_nat pos)).
      * by rewrite <- app_assoc.
      * intros n. rewrite fmap_app, elem_of_app. cbn [fmap list_fmap fst].
        rewrite elem_of_union, elem_of_singleton, list_elem_of_singleton, Hseen.
        tauto.
      * by rewrite last_snoc.
    + by apply IH.
Qed.

Lemma strongly_sorted_weaken {A : Type} (R R' : A -> A -> Prop) (l : list A) :
  StronglySorted R l -> (forall x y, R x y -> R' x y) -> StronglySorted R' l.
Proof.
  intros Hs Himp. induction Hs as [|a l Hs IH Hall]; constructor; [exact IH|].
  eapply Forall_impl; [exact Hall|]. intros y. apply Himp.
Qed.

Lemma strongly_sorted_adjacent {A : Type} (R : A -> A -> Prop) (l : list A) :
  StronglySorted R l ->
  forall i a b, l !! i = Some a -> l !! (S i) = Some b -> R a b.
Proof.
  induction 1 as [|a0 l Hs IH Hall]; intros i a b Ha Hb.
  - by rewrite lookup_nil in Ha.
  - destruct i as [|i].
    + cbn in Ha, Hb. injection Ha as <-. rewrite Forall_forall in Hall.
      apply Hall. eapply list_elem_of_lookup_2. exact Hb.
    + cbn in Ha, Hb. by eapply IH.
Qed.

Section Boundaries.
Context `{UnicodeData}.

(** C8 -- Boundary de-duplication: for every text, the matches that survive
    are sorted by offset (a stable sort), and the list the Boundary Detector
    returns is the single forward pass over them that keeps a match exactly
    when its number has not been kept before and its offset is at least 20
    past the offset kept last; the returned offsets are strictly increasing,
    every offset is at least 20 past the one returned before it, and the
    returned numbers are pairwise distinct. *)
Theorem find_question_boundaries_dedup (text : str) :
  let sorted := sort_by_pos (candidate_boundaries text) in
  let unique_boundaries := _find_question_boundaries text in
  sorted ≡ₚ candidate_boundaries text
  /\ StronglySorted (fun x y => (x.2 <= y.2)%nat) sorted
  /\ unique_boundaries = forward_pass sorted
  /\ StronglySorted (fun x y => (x.2 < y.2)%nat) unique_boundaries
  /\ (forall i a b,
        unique_boundaries !! i = Some a -> unique_boundaries !! (S i) = Some b ->
        (a.2 + 20 <= b.2)%nat)
  /\ NoDup unique_boundaries.*1.
Proof.
  intros sorted unique_boundaries.
  destruct (unique_pass_from ∅ (-100) sorted) as (_ & Hgap & Hnodup).
  fold (_find_question_boundaries text) in Hgap, Hnodup.
  fold unique_boundaries in Hgap, Hnodup.
  split; [apply sort_by_pos_perm|].
  split; [apply sort_by_pos_sorted|].
  split.
  { unfold unique_boundaries, _find_question_boundaries, forward_pass.
    fold sorted. rewrite <- (unique_pass_forward sorted [] ∅ (-100)); [done| |done].
    intros n. cbn [fmap list_fmap]. set_solver. }
  split.
  { eapply strongly_sorted_weaken; [exact Hgap|]. intros x y Hxy. simpl in *. lia. }
  split; [|exact Hnodup].
  intros i a b Ha Hb. exact (strongly_sorted_adjacent _ _ Hgap i a b Ha Hb).
Qed.

End Boundaries.

(** *** The segmenter *)

Section Segmenter.
Context `{UnicodeData}.

(** The span the loop of [recognize_questions] builds for the boundary at
    index [i]. *)
Lemma split_questions_lookup (text : str) (answer_map : gmap str str)
    (boundaries : list (str * nat)) (i : nat) (number : str) (start_pos : nat) :
  boundaries !! i = Some (number, start_pos) ->
  let end_pos :=
    match boundaries !! (S i) with
    | Some (_, next_pos) => next_pos
    | None => length text
    end in
  let question_text := strip (slice start_pos end_pos text) in
  split_questions text answer_map boundaries !! i
  = Some (number,
          match answer_map !! number with
          | Some answer_info =>
            if negb (contains (u "【正确答案】") question_text)
               && negb (contains (u "【答案】") question_text)
            then question_text ++ [NL] ++ answer_info
            else question_text
          | None => question_text
          end).
Proof.
  revert i. induction boundaries as [|[n s] bs IH]; intros i Hi.
  - by rewrite lookup_nil in Hi.
  - destruct i as [|i].
    + cbn in Hi. injection Hi as -> ->. cbn [split_questions lookup list_lookup].
      destruct bs as [|[n1 s1] bs1]; reflexivity.
    + cbn in Hi. cbn [split_questions]. exact (IH i Hi).
Qed.

(** C7 -- Segmentation: a whitespace-only (or empty) text, and a text in
    which no boundary is detected, give zero spans; otherwise, for the
    boundary at index i, with number [number] and offset [start_pos], whose
    slice runs to the next boundary's offset (or to the end of the text):
    when the trimmed slice contains neither 【正确答案】 nor 【答案】 and the
    answer-key side table has an entry for [number], the span returned at
    index i is the trimmed slice, a newline, and the entry's text; in every
    other case it is the trimmed slice. *)
Theorem recognize_questions_backfill (text : str) :
  (whitespace_only text = true -> recognize_questions text = [])
  /\ (_find_question_boundaries text = [] -> recognize_questions text = [])
  /\ (forall (i : nat) (number : str) (start_pos : nat),
       whitespace_only text = false ->
       _find_question_boundaries text !! i = Some (number, start_pos) ->
       let end_pos :=
         match _find_question_boundaries text !! (S i) with
         | Some (_, next_pos) => next_pos
         | None => length text
         end in
       let span := strip (slice start_pos end_pos text) in
       (forall answer_info : str,
           _extract_answer_section text !! number = Some answer_info ->
           contains (u "【正确答案】") span = false ->
           contains (u "【答案】") span = false ->
           recognize_questions text !! i = Some (number, span ++ [NL] ++ answer_info))
       /\ (_extract_answer_section text !! number = None
           \/ contains (u "【正确答案】") span = true
           \/ contains (u "【答案】") span = true ->
           recognize_questions text !! i = Some (number, span))).
Proof.
  split; [|split].
  - intros Hb. unfold recognize_questions. by rewrite blank_whitespace_only, Hb.
  - intros Hb. unfold recognize_questions. rewrite Hb.
    by destruct (blank text).
  - intros i number start_pos Hb Hi end_pos span.
    assert (recognize_questions text
            = split_questions text (_extract_answer_section text)
                (_find_question_boundaries text)) as ->.
    { unfold recognize_questions. rewrite blank_whitespace_only, Hb.
      destruct (_find_question_boundaries text); [done|reflexivity]. }
    pose proof (split_questions_lookup text (_extract_answer_section text)
                  _ i number start_pos Hi) as Hspan.
    cbv zeta in Hspan. fold end_pos in Hspan. fold span in Hspan.
    split.
    + intros answer_info Hinfo Hc1 Hc2. rewrite Hspan, Hinfo, Hc1, Hc2. reflexivity.
    + intros Hcase. rewrite Hspan.
      destruct (_extract_answer_section text !! number) as [info|]; [|done].
      destruct Hcase as [Hn|[Hc|Hc]]; [done| |]; rewrite Hc; [done|].
      by rewrite andb_false_r.
Qed.

End Segmenter.

(** *** The question assembler *)

Section Assembler.
Context `{UnicodeData}.

Lemma parse_question_ok (question_id text_block given : str) :
  whitespace_only text_block = false ->
  exists q, parse_question question_id text_block given = Ok q
    /\ qid q = question_id
    /\ number q = (if is_empty given then _extract_question_number text_block
                   else given)
    /\ needs_review q = review_flag q.
Proof.
  intros Hb. unfold parse_question. rewrite blank_whitespace_only, Hb.
  eexists. split; [reflexivity|]. repeat split.
Qed.

(** C3 -- The assembler raises ValidationError for every empty or
    whitespace-only span, and for every other span and every canonical
    number (a string of decimal digits, possibly empty) it raises nothing
    and returns a Question, which carries the identity drawn for it. *)
Theorem parse_question_raises_iff_blank (question_id text_block number : str) :
  forallb isdecimal number = true ->
  (whitespace_only text_block = true ->
   parse_question question_id text_block number
   = Raise (ValidationError (u "题目文本不能为空")))
  /\ (whitespace_only text_block = false ->
      exists q, parse_question question_id text_block number = Ok q
                /\ qid q = question_id).
Proof.
  intros _. split.
  - intros Hb. unfold parse_question. by rewrite blank_whitespace_only, Hb.
  - intros Hb. destruct (parse_question_ok question_id text_block number Hb)
      as (q & Hq & Hid & _).
    by exists q.
Qed.

Lemma review_flag_iff (q : Question) :
  review_flag q = true
  <-> whitespace_only (question_text q) = true
      \/ (length (options q) < 2)%nat
      \/ correct_answers q = []
      \/ question_type q = UNKNOWN.
Proof.
  assert (review_flag q
          = whitespace_only (question_text q)
            || (length (options q) <? 2)%nat
            || is_empty (correct_answers q)
            || bool_decide (question_type q = UNKNOWN)) as ->.
  { unfold review_flag.
    change (is_empty (question_text q) || is_empty (strip (question_text q)))
      with (blank (question_text q)).
    rewrite blank_whitespace_only.
    destruct (whitespace_only (question_text q)), (length (options q) <? 2)%nat,
      (is_empty (correct_answers q)), (bool_decide (question_type q = UNKNOWN));
      reflexivity. }
  rewrite !orb_true_iff, Nat.ltb_lt, bool_decide_eq_true.
  assert (is_empty (correct_answers q) = true <-> correct_answers q = []) as ->
    by (by destruct (correct_answers q)).
  tauto.
Qed.

(** C4 -- For every Question the assembler produces, needs_review is true
    if and only if the question text is empty or whitespace-only, or there
    are fewer than two options, or the correct-answer list is empty, or the
    type is Unknown. *)
Theorem needs_review_iff (question_id text_block number : str) (q : Question) :
  parse_question question_id text_block number = Ok q ->
  needs_review q = true
  <-> whitespace_only (question_text q) = true
      \/ (length (options q) < 2)%nat
      \/ correct_answers q = []
      \/ question_type q = UNKNOWN.
Proof.
  intros Hq. rewrite <- review_flag_iff.
  unfold parse_question in Hq. destruct (blank text_block); [done|].
  injection Hq as <-. reflexivity.
Qed.




End Assembler.

(** *** The question store *)

Lemma check_field_ok (updates : gmap str pyval) (key : str) (ok : pyval -> bool)
    (msg : str) (next : result unit) :
  check_field updates key ok msg next = Ok tt
  <-> field_ok updates key ok = true /\ next = Ok tt.
Proof.
  unfold check_field, field_ok. destruct (updates !! key) as [v|]; [|tauto].
  destruct (ok v); [tauto|]. split; [discriminate | intros [? _]; discriminate].
Qed.

Lemma check_list_field_ok (updates : gmap str pyval) (key : str)
    (elem_ok : pyval -> bool) (msg_list msg_elem : str) (next : result unit) :
  check_list_field updates key elem_ok msg_list msg_elem next = Ok tt
  <-> field_ok updates key (is_list_of elem_ok) = true /\ next = Ok tt.
Proof.
  unfold check_list_field, field_ok, is_list_of.
  destruct (updates !! key) as [v|]; [|tauto].
  destruct v; try (split; [discriminate | intros [? _]; discriminate]).
  destruct (forallb elem_ok l); [tauto|].
  split; [discriminate | intros [? _]; discriminate].
Qed.

(** [_validate_updates] accepts exactly the updates of the right shape. *)
Lemma validate_updates_ok (updates : gmap str pyval) :
  _validate_updates updates = Ok tt <-> valid_updates updates = true.
Proof.
  unfold _validate_updates, valid_updates.
  destruct (bool_decide (updates = ∅)); [split; discriminate|].
  rewrite check_field_ok, !check_list_field_ok, !check_field_ok.
  rewrite !andb_true_iff. cbn [negb]. tauto.
Qed.

Lemma validate_updates_raise (updates : gmap str pyval) :
  valid_updates updates = false -> exists e, _validate_updates updates = Raise e.
Proof.
  intros Hv. destruct (_validate_updates updates) as [[]|e] eqn:He; [|by exists e].
  apply validate_updates_ok in He. congruence.
Qed.

(** C5 -- Mutations of the store are atomic on failure.  Inserting a
    question whose identity is empty or already present (or inserting no
    question) raises and leaves the manager, that is both the question map
    and the source map, as it was; removing an absent identity returns false
    and leaves the manager as it was; update validates every supplied field
    before anything else ([_validate_updates] accepts exactly the non-empty
    updates whose supplied fields have the right types), raises when the
    validation fails or the identity is absent, and whenever it raises the
    manager is as it was. *)
Theorem store_mutations_atomic (self : QuestionManager) :
  (forall (question : Question) (source_file : str),
      qid question = [] \/ is_Some (_questions self !! qid question) ->
      exists e, add_question self (Some question) source_file = (self, Raise e))
  /\ (forall source_file : str,
      exists e, add_question self None source_file = (self, Raise e))
  /\ (forall question_id : str,
      _questions self !! question_id = None ->
      remove_question self question_id = (self, false))
  /\ (forall updates : gmap str pyval,
      _validate_updates updates = Ok tt <-> valid_updates updates = true)
  /\ (forall (question_id : str) (updates : gmap str pyval),
      valid_updates updates = false \/ _questions self !! question_id = None ->
      exists e, update_question self question_id updates = (self, Raise e))
  /\ (forall (question_id : str) (updates : gmap str pyval) (e : exn),
      (update_question self question_id updates).2 = Raise e ->
      (update_question self question_id updates).1 = self).
Proof.
  split; [|split; [|split; [|split; [|split]]]].
  - intros question source_file Hbad. unfold add_question.
    destruct (qid question) as [|c t] eqn:Hid; cbn [is_empty]; [by eexists|].
    destruct Hbad as [Hempty|Hdup]; [done|].
    rewrite bool_decide_eq_true_2 by exact Hdup. by eexists.
  - intros source_file. by eexists.
  - intros question_id Habsent. unfold remove_question. rewrite Habsent.
    rewrite bool_decide_eq_false_2; [done|]. by intros [? ?].
  - apply validate_updates_ok.
  - intros question_id updates Hbad. unfold update_question.
    destruct (_questions self !! question_id) as [q|] eqn:Hq; [|by eexists].
    destruct Hbad as [Hv|Hn]; [|done].
    destruct (validate_updates_raise updates Hv) as [e He]. rewrite He. by eexists.
  - intros question_id updates e. unfold update_question.
    destruct (_questions self !! question_id) as [q|]; [|done].
    destruct (_validate_updates updates) as [[]|e']; [|done].
    cbn [snd]. discriminate.
Qed.

Lemma auto_update_question_type_spec (question : Question) :
  question_type (_auto_update_question_type question)
  = type_by_count (length (correct_answers question))
  /\ correct_answers (_auto_update_question_type question) = correct_answers question
  /\ metadata (_auto_update_question_type question) = metadata question.
Proof.
  unfold _auto_update_question_type.
  set (new_type := if (length (correct_answers question) =? 0)%nat then UNKNOWN
                   else if (length (correct_answers question) =? 1)%nat
                        then SINGLE_CHOICE else MULTIPLE_CHOICE).
  assert (new_type = type_by_count (length (correct_answers question))) as Hnew.
  { unfold new_type. by destruct (length (correct_answers question)) as [|[|n]]. }
  destruct (bool_decide (question_type question = new_type)) eqn:Hsame; cbn [negb].
  - apply bool_decide_eq_true in Hsame. by rewrite Hsame, Hnew.
  - by rewrite <- Hnew.
Qed.

Lemma mapM_as_str (l : list pyval) :
  forallb is_str l = true -> is_Some (mapM as_str l).
Proof.
  induction l as [|v l IH]; cbn [forallb]; [by eexists|].
  intros Hl. apply andb_prop in Hl as [Hv Hl]. destruct (IH Hl) as [answers Ha].
  destruct v; try discriminate. cbn. rewrite Ha. by eexists.
Qed.

Section Store.
Context `{UnicodeData}.

(** With a non-empty answer list the classifier of the recognizer decides
    by the number of answers alone. *)
Lemma identify_question_type_by_count (question : Question) (text_block : str) :
  correct_answers question <> [] ->
  identify_question_type question text_block
  = type_by_count (length (correct_answers question)).
Proof.
  unfold identify_question_type.
  destruct (correct_answers question) as [|a [|b l]]; done.
Qed.

(** C6, as the code has it -- For every stored question and every valid
    update, the updated record is stored under the same identity; if the
    update supplies correct_answers but not question_type, the stored
    answers are the supplied ones and the stored type is recomputed from
    their number alone (0 gives Unknown, 1 Single, more Multiple), which is
    what the Type Classifier returns whenever the answer list is not empty;
    there is no textual-tag fallback.  If the update supplies metadata, the
    stored metadata is the union of the supplied mapping with the old one,
    the supplied keys overriding. *)
Theorem update_question_retypes_by_count (self self' : QuestionManager)
    (question_id : str) (updates : gmap str pyval) (current updated : Question) :
  _questions self !! question_id = Some current ->
  update_question self question_id updates = (self', Ok updated) ->
  _questions self' !! question_id = Some updated
  /\ (forall supplied : list pyval,
        updates !! (u "correct_answers") = Some (PList supplied) ->
        updates !! (u "question_type") = None ->
        mapM as_str supplied = Some (correct_answers updated)
        /\ question_type updated = type_by_count (length (correct_answers updated))
        /\ (correct_answers updated <> [] ->
            forall text_block,
              question_type updated = identify_question_type updated text_block))
  /\ (forall supplied : gmap str pyval,
        updates !! (u "metadata") = Some (PDict supplied) ->
        metadata updated = supplied ∪ metadata current
        /\ forall key,
             metadata updated !! key
             = match supplied !! key with
               | Some v => Some v
               | None => metadata current !! key
               end).
Proof.
  intros Hcur Hupd. unfold update_question in Hupd. rewrite Hcur in Hupd.
  destruct (_validate_updates updates) as [[]|e] eqn:Hvalid; [|done].
  injection Hupd as <- <-. cbn [_questions].
  split; [apply lookup_insert_eq|]. split.
  - intros supplied Hans Htype. unfold has_key. rewrite Hans, Htype.
    rewrite bool_decide_eq_true_2 by (by eexists).
    rewrite bool_decide_eq_false_2 by (by intros [? ?]). cbn [negb andb].
    destruct (auto_update_question_type_spec (replace_fields current updates))
      as (Hty & Hca & _).
    set (q0 := replace_fields current updates) in *.
    assert (mapM as_str supplied = Some (correct_answers q0)) as Hsup.
    { unfold q0, replace_fields. cbn [correct_answers]. unfold updated_field.
      rewrite Hans.
      cbn [mbind option_bind as_list].
      apply validate_updates_ok in Hvalid. unfold valid_updates in Hvalid.
      rewrite !andb_true_iff in Hvalid.
      destruct Hvalid as [[[[[_ Hv] _] _] _] _].
      unfold field_ok in Hv. rewrite Hans in Hv. cbn [is_list_of] in Hv.
      destruct (mapM_as_str supplied Hv) as [answers Ha]. by rewrite Ha. }
    rewrite Hca, Hty. split; [exact Hsup|]. split; [reflexivity|].
    intros Hne text_block.
    rewrite identify_question_type_by_count by (by rewrite Hca).
    by rewrite Hca.
  - intros supplied Hmeta.
    assert (metadata (replace_fields current updates) = supplied ∪ metadata current)
      as Hrep.
    { unfold replace_fields. cbn [metadata]. by rewrite Hmeta. }
    assert (metadata
              (if has_key updates (u "correct_answers")
                  && negb (has_key updates (u "question_type"))
               then _auto_update_question_type (replace_fields current updates)
               else replace_fields current updates)
            = supplied ∪ metadata current) as ->.
    { destruct (has_key updates (u "correct_answers")
                && negb (has_key updates (u "question_type"))); [|exact Hrep].
      destruct (auto_update_question_type_spec (replace_fields current updates))
        as (_ & _ & ->).
      exact Hrep. }
    split; [reflexivity|]. intros key. rewrite lookup_union.
    destruct (supplied !! key), (metadata current !! key); reflexivity.
Qed.

End Store.

(** *** The answer extractor *)

Section AnswerExtractor.
Context `{UnicodeData}.

(** With a number supplied, no answer from the exact pattern and more than
    one numbered answer marker in the text, the general patterns are
    skipped, and the result is whatever the loose patterns find. *)
Lemma extract_answer_multiple (text question_number : str) :
  whitespace_only text = false ->
  question_number <> [] ->
  first_answers M [specific_answer_pattern question_number] text = [] ->
  has_multiple_answers text = true ->
  extract_answer text question_number = first_answers I loose_patterns text.
Proof.
  intros Hb Hn Hspecific Hmulti. unfold extract_answer.
  rewrite blank_whitespace_only, Hb.
  destruct question_number as [|c t]; [done|]. cbn [is_empty negb].
  rewrite Hspecific, Hmulti. reflexivity.
Qed.

End AnswerExtractor.

(** *** The model on the sample data *)

Section Examples.
#[local] Existing Instance ascii_digits.

(** C1 -- The answer extractor on [span_with_two_entries] and the number 3:
    the exact pattern finds nothing for 3, the text holds two numbered
    answer markers, and yet the result is not empty: the loose pattern
    答\s*案 picks the C of 答案C. *)
Theorem extract_answer_loose_after_multiple :
  whitespace_only span_with_two_entries = false
  /\ first_answers M [specific_answer_pattern (u "3")] span_with_two_entries = []
  /\ has_multiple_answers span_with_two_entries = true
  /\ first_answers I loose_patterns span_with_two_entries = [u "C"]
  /\ extract_answer span_with_two_entries (u "3") = [u "C"].
Proof. vm_compute. repeat split; reflexivity. Qed.

(** The round trip on the letters A, C, B joined by 、. *)
Lemma parse_answer_string_roundtrip_witness :
  NoDup [65; 67; 66]
  /\ _parse_answer_string (join (u "、") (letters [65; 67; 66])) = letters [65; 67; 66].
Proof.
  assert (NoDup [65; 67; 66]) as Hnd.
  { apply (bool_decide_unpack (NoDup [65; 67; 66])). vm_compute. exact Logic.I. }
  split; [exact Hnd|].
  apply (parse_answer_string_roundtrip [65; 67; 66] (u "、") Hnd); reflexivity.
Defined.

(** The assembler returns a Question for [tcp_span] and the number 1. *)
Lemma parse_question_raises_iff_blank_witness :
  forallb isdecimal (u "1") = true
  /\ exists q, parse_question (u "id") tcp_span (u "1") = Ok q /\ qid q = u "id".
Proof.
  split; [reflexivity|].
  apply (parse_question_raises_iff_blank (u "id") tcp_span (u "1")); reflexivity.
Defined.

(** The review flag of the Question assembled from [tcp_span]. *)
Lemma needs_review_iff_witness :
  parse_question (u "id") tcp_span (u "1") = Ok tcp_question
  /\ (needs_review tcp_question = true
      <-> whitespace_only (question_text tcp_question) = true
          \/ (length (options tcp_question) < 2)%nat
          \/ correct_answers tcp_question = []
          \/ question_type tcp_question = UNKNOWN).
Proof.
  assert (parse_question (u "id") tcp_span (u "1") = Ok tcp_question) as Hq
    by (vm_compute; reflexivity).
  split; [exact Hq|].
  exact (needs_review_iff (u "id") tcp_span (u "1") tcp_question Hq).
Defined.


(** The update [clear_answers] of [tagged_question] in [tagged_manager]. *)
Lemma update_question_retypes_by_count_witness :
  _questions tagged_manager !! (u "q1") = Some tagged_question
  /\ update_question tagged_manager (u "q1") clear_answers
     = (cleared_manager, Ok cleared_question)
  /\ _questions cleared_manager !! (u "q1") = Some cleared_question.
Proof.
  assert (_questions tagged_manager !! (u "q1") = Some tagged_question) as Hcur
    by (vm_compute; reflexivity).
  assert (update_question tagged_manager (u "q1") clear_answers
          = (cleared_manager, Ok cleared_question)) as Hupd
    by (vm_compute; reflexivity).
  split; [exact Hcur|]. split; [exact Hupd|].
  exact (proj1 (update_question_retypes_by_count tagged_manager cleared_manager
                  (u "q1") clear_answers tagged_question cleared_question Hcur Hupd)).
Defined.

(** C6, as the claim has it, fails on [tagged_question]: after the update
    [clear_answers] the stored type is Unknown, while the Type Classifier on
    the stored record reads the tag 【多选】 of the question text and answers
    Multiple. *)
Lemma update_question_no_tag_fallback :
  update_question tagged_manager (u "q1") clear_answers
  = (cleared_manager, Ok cleared_question)
  /\ _questions cleared_manager !! (u "q1") = Some cleared_question
  /\ question_type cleared_question = UNKNOWN
  /\ identify_question_type cleared_question [] = MULTIPLE_CHOICE
  /\ question_type cleared_question <> identify_question_type cleared_question [].
Proof.
  assert (identify_question_type cleared_question [] = MULTIPLE_CHOICE) as Hid
    by (vm_compute; reflexivity).
  split; [vm_compute; reflexivity|]. split; [vm_compute; reflexivity|].
  split; [reflexivity|]. split; [exact Hid|]. rewrite Hid. discriminate.
Qed.

(** C9, as the claim has it, fails on the tokens 零, 千 and abc: the claim
    has an unparsable or all-zero token yield "1", and the place-value
    parser does give 1 for 零, whose total is zero; but the normalizer does
    not call the parser on these tokens and returns each as it came. *)
Lemma convert_chinese_number_keeps_unparsable :
  _convert_chinese_number (u "零") = u "零"
  /\ place_value 0 (u "零") = 0
  /\ str_of_int (_parse_chinese_number (u "零")) = u "1"
  /\ _convert_chinese_number (u "千") = u "千"
  /\ _convert_chinese_number (u "abc") = u "abc"
  /\ _convert_chinese_number (u "零") <> u "1".
Proof.
  assert (_convert_chinese_number (u "零") = u "零") as Hzero
    by (vm_compute; reflexivity).
  split; [exact Hzero|]. split; [vm_compute; reflexivity|].
  split; [vm_compute; reflexivity|]. split; [vm_compute; reflexivity|].
  split; [vm_compute; reflexivity|]. rewrite Hzero. discriminate.
Qed.

(** The specification's examples. *)

Example boundary_styles :
  map (fun text => (_find_question_boundaries text).*1)
      [u "3. x"; u "3、x"; u "(3) x"; u "三、x"; u "第3题 x"]
  = [[u "3"]; [u "3"]; [u "3"]; [u "3"]; [u "3"]].
Proof. vm_compute. reflexivity. Qed.

Example assemble_tcp :
  parse_question (u "id") tcp_span (u "1") = Ok tcp_question.
Proof. vm_compute. reflexivity. Qed.

Example backfill_question_2 :
  recognize_questions sample_document !! 1%nat
  = Some (u "2", sample_span_2 ++ [NL] ++ u "【正确答案】 B")
  /\ extract_answer (sample_span_2 ++ [NL] ++ u "【正确答案】 B") (u "2") = [u "B"].
Proof. vm_compute. split; reflexivity. Qed.

Example compound_numerals :
  map _convert_chinese_number [u "三"; u "二十一"; u "一百二十三"; u "十七"; u "12"]
  = [u "3"; u "21"; u "123"; u "17"; u "12"].
Proof. vm_compute. reflexivity. Qed.

End Examples.

(* ===================================================================== *)
(** ** Further properties *)
(* ===================================================================== *)

(** *** The question store: insertion, removal, selection *)

(** X1 -- An insertion that succeeds, read back: the question is stored under its
    identity, every other identity is as before, the count grows by one,
    and the source is recorded exactly when one is given. *)
Theorem add_question_stores (self : QuestionManager) (question : Question)
    (source_file : str) :
  qid question <> [] ->
  _questions self !! qid question = None ->
  exists self',
    add_question self (Some question) source_file = (self', Ok (qid question))
    /\ get_question self' (qid question) = Some question
    /\ contains_question self' (qid question) = true
    /\ (forall k, k <> qid question -> get_question self' k = get_question self k)
    /\ count self' = S (count self)
    /\ _source_file_map self'
       = (if is_empty source_file then _source_file_map self
          else <[qid question := source_file]> (_source_file_map self)).
Proof.
  intros Hid Hfresh. unfold add_question.
  destruct (qid question) as [|c t] eqn:Hq; [done|]. cbn [is_empty].
  rewrite bool_decide_eq_false_2 by (rewrite Hfresh; by intros [? ?]).
  eexists. split; [reflexivity|].
  unfold get_question, contains_question, count. cbn [_questions _source_file_map].
  split; [apply lookup_insert_eq|].
  split; [rewrite lookup_insert_eq; apply bool_decide_eq_true_2; by eexists|].
  split; [intros k Hk; by apply lookup_insert_ne|].
  split; [by apply map_size_insert_None|].
  by destruct source_file.
Qed.

(** X2 -- Removing what was just inserted gives the manager back, when no source
    was on record for that identity before. *)
Theorem add_then_remove (self : QuestionManager) (question : Question)
    (source_file : str) :
  qid question <> [] ->
  _questions self !! qid question = None ->
  _source_file_map self !! qid question = None ->
  remove_question (add_question self (Some question) source_file).1 (qid question)
  = (self, true).
Proof.
  intros Hid Hfresh Hsrc. unfold add_question.
  destruct (qid question) as [|c t] eqn:Hq; [done|]. cbn [is_empty].
  rewrite bool_decide_eq_false_2 by (rewrite Hfresh; by intros [? ?]).
  cbn [fst]. unfold remove_question. cbn [_questions _source_file_map].
  rewrite lookup_insert_eq.
  rewrite bool_decide_eq_true_2 by (by eexists). cbn [negb].
  rewrite delete_insert_id by exact Hfresh.
  destruct self as [qs srcs]. cbn [_questions _source_file_map] in *. f_equal. f_equal.
  destruct source_file as [|d s]; cbn [is_empty negb].
  - rewrite Hsrc. rewrite bool_decide_eq_false_2; [done|]. by intros [? ?].
  - rewrite lookup_insert_eq. rewrite bool_decide_eq_true_2 by (by eexists).
    by apply delete_insert_id.
Qed.

(** X3 -- A removal that succeeds deletes the identity from both dicts and
    leaves every other entry of both as it was. *)
Theorem remove_question_deletes (self : QuestionManager) (question_id : str)
    (question : Question) :
  _questions self !! question_id = Some question ->
  exists self',
    remove_question self question_id = (self', true)
    /\ get_question self' question_id = None
    /\ _source_file_map self' !! question_id = None
    /\ (forall k, k <> question_id ->
          get_question self' k = get_question self k
          /\ _source_file_map self' !! k = _source_file_map self !! k)
    /\ count self = S (count self').
Proof.
  intros Hq. unfold remove_question. rewrite Hq.
  rewrite bool_decide_eq_true_2 by (by eexists). cbn [negb].
  eexists. split; [reflexivity|].
  unfold get_question, count. cbn [_questions _source_file_map].
  split; [apply lookup_delete_eq|]. split; [|split].
  - case_bool_decide as Hs; [apply lookup_delete_eq|].
    destruct (_source_file_map self !! question_id) eqn:E; [|done].
    exfalso. apply Hs. by eexists.
  - intros k Hk. split; [by apply lookup_delete_ne|].
    case_bool_decide; [by apply lookup_delete_ne|done].
  - rewrite map_size_delete, Hq. cbn.
    assert (size (_questions self) <> 0%nat); [|lia].
    intros Hz. apply map_size_empty_inv in Hz. by rewrite Hz in Hq.
Qed.

(** The loop of [select_all] sets the flag of every stored question. *)
Lemma select_all_loop_lookup (b : bool) (ks : list str) (m : gmap str Question)
    (k : str) :
  foldl (fun questions question_id =>
           match questions !! question_id with
           | Some question => <[question_id := set_selected b question]> questions
           | None => questions
           end) m ks !! k
  = if bool_decide (k ∈ ks) then set_selected b <$> m !! k else m !! k.
Proof.
  revert m. induction ks as [|k0 ks IH]; intros m; [done|].
  cbn [foldl]. rewrite IH.
  assert (forall (m' : gmap str Question),
             m' = match m !! k0 with
                  | Some question => <[k0 := set_selected b question]> m
                  | None => m
                  end ->
             m' !! k = if bool_decide (k = k0) then set_selected b <$> m !! k
                       else m !! k) as Hstep.
  { intros m' ->. clear IH. destruct (decide (k = k0)) as [<-|Hk].
    - rewrite bool_decide_eq_true_2 by done. destruct (m !! k) as [q|] eqn:Hq.
      + by rewrite lookup_insert_eq.
      + by rewrite Hq.
    - rewrite bool_decide_eq_false_2 by done.
      destruct (m !! k0) as [q|]; [by rewrite lookup_insert_ne|done]. }
  rewrite (Hstep _ eq_refl).
  destruct (decide (k = k0)) as [->|Hne].
  - rewrite (bool_decide_eq_true_2 (k0 = k0)) by done.
    rewrite (bool_decide_eq_true_2 (k0 ∈ k0 :: ks)) by left.
    destruct (bool_decide (k0 ∈ ks)); [|done].
    by destruct (m !! k0).
  - rewrite (bool_decide_eq_false_2 (k = k0)) by done.
    destruct (decide (k ∈ ks)) as [Hin|Hout].
    + rewrite (bool_decide_eq_true_2 (k ∈ ks)) by done.
      by rewrite (bool_decide_eq_true_2 (k ∈ k0 :: ks)) by (by right).
    + rewrite (bool_decide_eq_false_2 (k ∈ ks)) by done.
      rewrite (bool_decide_eq_false_2 (k ∈ k0 :: ks)); [done|].
      intros Hin. apply elem_of_cons in Hin as [?|?]; done.
Qed.

Lemma select_all_questions (self : QuestionManager) (b : bool) :
  _questions (select_all self b) = set_selected b <$> _questions self.
Proof.
  unfold select_all. cbn [_questions]. apply map_eq. intros k.
  rewrite select_all_loop_lookup, lookup_fmap.
  case_bool_decide as Hk; [done|].
  destruct (_questions self !! k) as [q|] eqn:Hq; [|done].
  exfalso. apply Hk. apply list_elem_of_fmap. exists (k, q). split; [done|].
  by apply elem_of_map_to_list.
Qed.

Lemma filter_length_perm {A : Type} (p : A -> bool) (l1 l2 : list A) :
  l1 ≡ₚ l2 -> length (List.filter p l1) = length (List.filter p l2).
Proof.
  induction 1 as [|x l1 l2 Hp IH|x y l|l1 l2 l3 H1 IH1 H2 IH2]; cbn [List.filter].
  - done.
  - destruct (p x); cbn [length]; by rewrite IH.
  - by destruct (p x), (p y).
  - by rewrite IH1.
Qed.

(** The values of a dict after [f] was applied to each. *)
Lemma values_fmap_perm (f : Question -> Question) (m : gmap str Question) :
  (map_to_list (f <$> m)).*2 ≡ₚ f <$> (map_to_list m).*2.
Proof.
  rewrite map_to_list_fmap. rewrite <- !list_fmap_compose.
  match goal with |- ?a ≡ₚ ?b => enough (a = b) as -> by done end.
  apply list_fmap_ext. by intros i [k q] _.
Qed.

(** X6 -- Selecting every question makes the selected count the count of the
    store, deselecting every question makes it zero; in both cases the
    stored questions change in their [selected] flag only, and the sources
    not at all. *)
Theorem select_all_counts (self : QuestionManager) (b : bool) :
  get_selected_count (select_all self b) = (if b then count self else 0%nat)
  /\ count (select_all self b) = count self
  /\ (forall k, get_question (select_all self b) k
                = set_selected b <$> get_question self k)
  /\ _source_file_map (select_all self b) = _source_file_map self.
Proof.
  split; [|split; [|split]].
  - unfold get_selected_count, count. rewrite select_all_questions.
    rewrite (filter_length_perm _ _ _ (values_fmap_perm _ _)).
    rewrite <- (length_map_to_list (_questions self)).
    generalize (map_to_list (_questions self)). intros l.
    induction l as [|[k q] l IH]; [by destruct b|].
    cbn [fmap list_fmap snd List.filter selected set_selected].
    destruct b; cbn [length]; [f_equal|]; exact IH.
  - unfold count. rewrite select_all_questions. apply map_size_fmap.
  - intros k. unfold get_question. by rewrite select_all_questions, lookup_fmap.
  - reflexivity.
Qed.

(** X5 -- A selection that succeeds changes the flag of that one question; the
    selected count moves by the difference of the old and the new flag. *)
Theorem select_question_flags_one (self : QuestionManager) (question_id : str)
    (b : bool) :
  (get_question self question_id = None ->
   select_question self question_id b = (self, false))
  /\ (forall question : Question,
        get_question self question_id = Some question ->
        exists self',
          select_question self question_id b = (self', true)
          /\ get_question self' question_id = Some (set_selected b question)
          /\ (forall k, k <> question_id -> get_question self' k = get_question self k)
          /\ count self' = count self
          /\ _source_file_map self' = _source_file_map self
          /\ (get_selected_count self' + (if selected question then 1 else 0)
              = get_selected_count self + (if b then 1 else 0))%nat).
Proof.
  unfold get_question, select_question. split.
  - by intros ->.
  - intros question Hq. rewrite Hq. eexists. split; [reflexivity|].
    unfold count, get_selected_count. cbn [_questions _source_file_map].
    split; [apply lookup_insert_eq|].
    split; [intros k Hk; by apply lookup_insert_ne|].
    split; [apply map_size_insert_Some; by eexists|].
    split; [reflexivity|].
    set (m0 := delete question_id (_questions self)).
    assert (m0 !! question_id = None) as Hm0 by apply lookup_delete_eq.
    rewrite <- (insert_delete_eq (_questions self)). fold m0.
    rewrite <- (insert_delete_id (_questions self) question_id question Hq).
    fold m0.
    rewrite (filter_length_perm selected _ _
               (fmap_Permutation snd _ _ (map_to_list_insert m0 _ _ Hm0))).
    rewrite (filter_length_perm selected _ _
               (fmap_Permutation snd _ _
                  (map_to_list_insert m0 question_id question Hm0))).
    cbn [fmap list_fmap snd List.filter selected set_selected].
    destruct b, (selected question); cbn [length]; lia.
Qed.

(** *** The question store: batches and the invariant of the keys *)

(** What a successful [add_question] says about its arguments and does to
    the manager. *)
Lemma add_question_ok_inv (self self' : QuestionManager) (question : option Question)
    (source_file question_id : str) :
  add_question self question source_file = (self', Ok question_id) ->
  exists q,
    question = Some q /\ question_id = qid q /\ qid q <> []
    /\ _questions self !! qid q = None
    /\ _questions self' = <[qid q := q]> (_questions self)
    /\ _source_file_map self'
       = (if is_empty source_file then _source_file_map self
          else <[qid q := source_file]> (_source_file_map self)).
Proof.
  unfold add_question. destruct question as [q|]; [|done].
  destruct (qid q) as [|c t] eqn:Hid; cbn [is_empty]; [done|].
  case_bool_decide as Hdup; [done|]. intros [= <- <-].
  exists q. rewrite Hid. cbn [_questions _source_file_map].
  split; [done|]. split; [done|]. split; [done|].
  split; [|split; [done|by destruct source_file]].
  destruct (_questions self !! (c :: t)) eqn:E; [|done].
  exfalso. apply Hdup. by eexists.
Qed.

(** An [add_question] that raises leaves the manager as it was. *)
Lemma add_question_raise_inv (self self' : QuestionManager) (question : option Question)
    (source_file : str) (e : exn) :
  add_question self question source_file = (self', Raise e) -> self' = self.
Proof.
  unfold add_question. destruct question as [q|]; [|by intros [= <- _]].
  destruct (is_empty (qid q)); [by intros [= <- _]|].
  case_bool_decide; [by intros [= <- _]|done].
Qed.

Lemma add_questions_loop_app (self : QuestionManager) (l1 l2 : list (option Question))
    (source_file : str) (added_ids : list str) :
  add_questions_loop self (l1 ++ l2) source_file added_ids
  = match add_questions_loop self l1 source_file added_ids with
    | (self1, Ok ids) => add_questions_loop self1 l2 source_file ids
    | (self1, Raise e) => (self1, Raise e)
    end.
Proof.
  revert self added_ids. induction l1 as [|q l1 IH]; intros self added_ids; [done|].
  cbn [app add_questions_loop].
  destruct (add_question self q source_file) as [self1 [question_id|e]]; [apply IH|done].
Qed.

(** A loop of [add_questions] that runs to its end returns the identities
    of its questions in order (after those it started with), has stored
    each question under its identity, and has kept what was stored. *)
Lemma add_questions_loop_ok (self self' : QuestionManager)
    (questions : list (option Question)) (source_file : str) (added_ids ids : list str) :
  add_questions_loop self questions source_file added_ids = (self', Ok ids) ->
  exists new_ids,
    ids = added_ids ++ new_ids
    /\ Forall2 (fun question question_id =>
                  exists q, question = Some q /\ qid q = question_id
                            /\ _questions self' !! question_id = Some q)
               questions new_ids
    /\ (forall k q, _questions self !! k = Some q -> _questions self' !! k = Some q).
Proof.
  revert self added_ids.
  induction questions as [|question rest IH]; intros self added_ids Hloop.
  - cbn in Hloop. injection Hloop as <- <-. exists []. rewrite app_nil_r.
    split; [done|]. split; [constructor|done].
  - cbn [add_questions_loop] in Hloop.
    destruct (add_question self question source_file) as [self1 [question_id|e]] eqn:Hadd;
      [|done].
    apply add_question_ok_inv in Hadd as (q & -> & -> & Hne & Hfresh & Hqs & _).
    destruct (IH _ _ Hloop) as (new_ids & -> & Hall & Hkeep).
    assert (forall k q0, _questions self !! k = Some q0 ->
                         _questions self1 !! k = Some q0) as Hkeep1.
    { intros k q0 Hk. rewrite Hqs. rewrite lookup_insert_ne; [done|].
      intros <-. congruence. }
    exists (qid q :: new_ids). rewrite <- app_assoc. split; [done|]. split.
    + constructor; [|exact Hall]. exists q. split; [done|]. split; [done|].
      apply Hkeep. rewrite Hqs. apply lookup_insert_eq.
    + intros k q0 Hk. by apply Hkeep, Hkeep1.
Qed.

(** X4 -- [add_questions] is not atomic: when the questions [good] go in and the
    next one is refused, the call raises the exception of that question
    while the questions of [good] stay stored, each under its identity;
    the identities collected so far are lost with the exception. *)
Theorem add_questions_keeps_prefix (self self1 : QuestionManager)
    (good rest : list (option Question)) (bad : option Question)
    (source_file : str) (ids : list str) (e : exn) :
  add_questions self good source_file = (self1, Ok ids) ->
  (add_question self1 bad source_file).2 = Raise e ->
  add_questions self (good ++ bad :: rest) source_file = (self1, Raise e)
  /\ Forall2 (fun question question_id =>
                exists q, question = Some q /\ qid q = question_id
                          /\ get_question self1 question_id = Some q)
             good ids
  /\ (forall k q, get_question self k = Some q -> get_question self1 k = Some q).
Proof.
  unfold add_questions. intros Hgood Hbad.
  split.
  - rewrite add_questions_loop_app, Hgood. cbn [add_questions_loop].
    destruct (add_question self1 bad source_file) as [self2 [question_id|e']] eqn:Hadd;
      [done|].
    cbn [snd] in Hbad. injection Hbad as ->.
    by rewrite (add_question_raise_inv _ _ _ _ _ Hadd).
  - destruct (add_questions_loop_ok _ _ _ _ _ _ Hgood) as (new_ids & -> & Hall & Hkeep).
    split; [exact Hall | exact Hkeep].
Qed.

Lemma well_keyed_add (self : QuestionManager) (question : option Question)
    (source_file : str) :
  well_keyed self -> well_keyed (add_question self question source_file).1.
Proof.
  intros Hwk.
  destruct (add_question self question source_file) as [self' [question_id|e]] eqn:Hadd;
    cbn [fst]; [|by rewrite (add_question_raise_inv _ _ _ _ _ Hadd)].
  apply add_question_ok_inv in Hadd as (q & -> & -> & Hne & Hfresh & Hqs & Hsrc).
  destruct Hwk as [Hq Hs]. unfold well_keyed. rewrite Hqs, Hsrc.
  assert (map_Forall (fun k s => is_Some (<[qid q:=q]> (_questions self) !! k) /\ s <> [])
                     (_source_file_map self)) as Hs'.
  { eapply map_Forall_impl; [exact Hs|]. intros k s [Hk Hnes]. split; [|done].
    apply lookup_insert_is_Some. destruct (decide (qid q = k)); auto. }
  split.
  - by apply map_Forall_insert_2.
  - destruct source_file as [|c t]; cbn [is_empty]; [exact Hs'|].
    apply map_Forall_insert_2; [|exact Hs'].
    split; [rewrite lookup_insert_eq; by eexists | done].
Qed.

Lemma well_keyed_add_questions_loop (self : QuestionManager)
    (questions : list (option Question)) (source_file : str) (added_ids : list str) :
  well_keyed self -> well_keyed (add_questions_loop self questions source_file added_ids).1.
Proof.
  revert self added_ids. induction questions as [|q rest IH]; intros self added_ids Hwk;
    [done|].
  cbn [add_questions_loop].
  pose proof (well_keyed_add self q source_file Hwk) as Hwk1.
  destruct (add_question self q source_file) as [self1 [question_id|e]]; cbn [fst] in *;
    [by apply IH | done].
Qed.

Lemma well_keyed_store_questions (self : QuestionManager) (questions : list Question)
    (file_path : str) :
  well_keyed self -> well_keyed (store_questions self questions file_path).
Proof.
  unfold store_questions. revert self.
  induction questions as [|q rest IH]; intros self Hwk; [done|].
  cbn [foldl]. apply IH. by apply well_keyed_add.
Qed.

Lemma well_keyed_remove (self : QuestionManager) (question_id : str) :
  well_keyed self -> well_keyed (remove_question self question_id).1.
Proof.
  intros [Hq Hs]. unfold remove_question.
  destruct (bool_decide (is_Some (_questions self !! question_id))) eqn:Hin;
    cbn [negb fst]; [|by split].
  split; cbn [_questions _source_file_map].
  - by apply map_Forall_delete.
  - intros k s Hk.
    assert (k <> question_id /\ _source_file_map self !! k = Some s) as [Hne Hks].
    { destruct (bool_decide (is_Some (_source_file_map self !! question_id))) eqn:Hsrc.
      - apply lookup_delete_Some in Hk as [? ?]. done.
      - split; [|done]. intros ->. apply bool_decide_eq_false in Hsrc.
        apply Hsrc. by eexists. }
    destruct (Hs k s Hks) as [Hsome Hnes]. split; [|done].
    by rewrite lookup_delete_ne.
Qed.

Lemma auto_update_question_type_set (question : Question) :
  _auto_update_question_type question
  = set_question_type (type_by_count (length (correct_answers question))) question.
Proof.
  unfold _auto_update_question_type.
  assert ((if (length (correct_answers question) =? 0)%nat then UNKNOWN
           else if (length (correct_answers question) =? 1)%nat
                then SINGLE_CHOICE else MULTIPLE_CHOICE)
          = type_by_count (length (correct_answers question))) as ->.
  { by destruct (length (correct_answers question)) as [|[|n]]. }
  case_bool_decide as Hsame; cbn [negb]; [|done].
  rewrite <- Hsame. by destruct question.
Qed.

Lemma update_question_ok_inv (self self' : QuestionManager) (question_id : str)
    (updates : gmap str pyval) (updated : Question) :
  update_question self question_id updates = (self', Ok updated) ->
  exists current,
    _questions self !! question_id = Some current
    /\ _validate_updates updates = Ok tt
    /\ updated = updated_record current updates
    /\ self' = {| _questions := <[question_id := updated]> (_questions self);
                  _source_file_map := _source_file_map self |}.
Proof.
  unfold update_question.
  destruct (_questions self !! question_id) as [current|]; [|done].
  destruct (_validate_updates updates) as [[]|e]; [|done].
  intros [= <- <-]. by exists current.
Qed.

(** The fields an update never writes. *)
Lemma updated_record_frame (current : Question) (updates : gmap str pyval) :
  qid (updated_record current updates) = qid current
  /\ explanation (updated_record current updates) = explanation current
  /\ images (updated_record current updates) = images current
  /\ selected (updated_record current updates) = selected current.
Proof.
  unfold updated_record.
  destruct (has_key updates _ && negb (has_key updates _));
    [rewrite auto_update_question_type_set|]; done.
Qed.

Lemma well_keyed_update (self : QuestionManager) (question_id : str)
    (updates : gmap str pyval) :
  well_keyed self -> well_keyed (update_question self question_id updates).1.
Proof.
  intros Hwk.
  destruct (update_question self question_id updates) as [self' [updated|e]] eqn:Hupd;
    cbn [fst].
  - apply update_question_ok_inv in Hupd as (current & Hcur & _ & -> & ->).
    destruct Hwk as [Hq Hs]. split; cbn [_questions _source_file_map].
    + apply map_Forall_insert_2; [|done].
      destruct (updated_record_frame current updates) as (-> & _).
      exact (Hq _ _ Hcur).
    + eapply map_Forall_impl; [exact Hs|]. intros k s [Hk Hnes]. split; [|done].
      apply lookup_insert_is_Some. destruct (decide (question_id = k)); auto.
  - unfold update_question in Hupd.
    destruct (_questions self !! question_id) as [current|]; [|by injection Hupd as <- _].
    destruct (_validate_updates updates) as [[]|e']; [done|by injection Hupd as <- _].
Qed.

Lemma well_keyed_select_question (self : QuestionManager) (question_id : str) (b : bool) :
  well_keyed self -> well_keyed (select_question self question_id b).1.
Proof.
  intros [Hq Hs]. unfold select_question.
  destruct (_questions self !! question_id) as [q|] eqn:Hcur; cbn [fst]; [|by split].
  split; cbn [_questions _source_file_map].
  - apply map_Forall_insert_2; [|done]. exact (Hq _ _ Hcur).
  - eapply map_Forall_impl; [exact Hs|]. intros k s [Hk Hnes]. split; [|done].
    apply lookup_insert_is_Some. destruct (decide (question_id = k)); auto.
Qed.

Lemma well_keyed_select_all (self : QuestionManager) (b : bool) :
  well_keyed self -> well_keyed (select_all self b).
Proof.
  intros [Hq Hs]. split.
  - rewrite select_all_questions. apply map_Forall_fmap.
    eapply map_Forall_impl; [exact Hq|]. by intros k q.
  - rewrite select_all_questions. cbn [select_all _source_file_map].
    eapply map_Forall_impl; [exact Hs|]. intros k s [[q Hk] Hnes]. split; [|done].
    rewrite lookup_fmap, Hk. by eexists.
Qed.

(** X10 -- The keys of the two dicts stay fitted together: the empty manager is
    well keyed, and every method of the manager and the storing loop of the
    batch processor take a well-keyed manager to a well-keyed one, whether
    they succeed or raise.  In particular no update can move a question to
    another identity, and no source is left behind for a removed question. *)
Theorem well_keyed_preserved :
  well_keyed new_manager
  /\ forall self : QuestionManager,
       well_keyed self ->
       (forall question source_file,
           well_keyed (add_question self question source_file).1)
       /\ (forall questions source_file,
             well_keyed (add_questions self questions source_file).1)
       /\ (forall question_id, well_keyed (remove_question self question_id).1)
       /\ (forall question_id updates,
             well_keyed (update_question self question_id updates).1)
       /\ (forall question_id b, well_keyed (select_question self question_id b).1)
       /\ (forall b, well_keyed (select_all self b))
       /\ well_keyed (clear self)
       /\ (forall questions file_path,
             well_keyed (store_questions self questions file_path)).
Proof.
  split; [split; apply map_Forall_empty|].
  intros self Hwk.
  split; [intros; by apply well_keyed_add|].
  split; [intros; by apply well_keyed_add_questions_loop|].
  split; [intros; by apply well_keyed_remove|].
  split; [intros; by apply well_keyed_update|].
  split; [intros; by apply well_keyed_select_question|].
  split; [intros; by apply well_keyed_select_all|].
  split; [split; apply map_Forall_empty|].
  intros. by apply well_keyed_store_questions.
Qed.

(** *** The question store: updates *)

(** X7 -- An update that succeeds writes one record and nothing else: the
    identity, the explanation, the images and the selected flag of the
    record are those of the record it replaces, every other question and
    the whole source map are as before, and the count is unchanged. *)
Theorem update_question_frame (self self' : QuestionManager) (question_id : str)
    (updates : gmap str pyval) (updated : Question) :
  update_question self question_id updates = (self', Ok updated) ->
  exists current,
    get_question self question_id = Some current
    /\ qid updated = qid current
    /\ explanation updated = explanation current
    /\ images updated = images current
    /\ selected updated = selected current
    /\ get_question self' question_id = Some updated
    /\ (forall k, k <> question_id -> get_question self' k = get_question self k)
    /\ count self' = count self
    /\ _source_file_map self' = _source_file_map self.
Proof.
  intros Hupd.
  apply update_question_ok_inv in Hupd as (current & Hcur & _ & -> & ->).
  exists current. unfold get_question, count. cbn [_questions _source_file_map].
  destruct (updated_record_frame current updates) as (-> & -> & -> & ->).
  split; [exact Hcur|]. do 4 (split; [reflexivity|]).
  split; [apply lookup_insert_eq|].
  split; [intros k Hk; by apply lookup_insert_ne|].
  split; [apply map_size_insert_Some; by eexists | reflexivity].
Qed.

Lemma updated_field_idem {A : Type} (updates : gmap str pyval) (key : str)
    (read : pyval -> option A) (current : A) :
  updated_field updates key read (updated_field updates key read current)
  = updated_field updates key read current.
Proof. unfold updated_field. by destruct (updates !! key ≫= read). Qed.

Lemma replace_fields_idem (current : Question) (updates : gmap str pyval) :
  replace_fields (replace_fields current updates) updates = replace_fields current updates.
Proof.
  unfold replace_fields. cbn [qid number question_text options correct_answers
    question_type explanation images needs_review selected metadata].
  rewrite !updated_field_idem. f_equal.
  destruct (updates !! _ ≫= as_dict) as [d|]; [|done].
  apply map_eq. intros k. rewrite !lookup_union.
  by destruct (d !! k), (metadata current !! k).
Qed.

Lemma replace_fields_set_question_type (q : Question) (updates : gmap str pyval)
    (t : QuestionType) :
  updates !! (u "question_type") = None ->
  replace_fields q updates = q ->
  replace_fields (set_question_type t q) updates = set_question_type t q.
Proof.
  intros Hnone. destruct q. unfold replace_fields, set_question_type.
  cbn [qid number question_text options correct_answers question_type explanation
       images needs_review selected metadata].
  intros Heq. injection Heq. intros. f_equal; try assumption.
  unfold updated_field. by rewrite Hnone.
Qed.

Lemma updated_record_idem (current : Question) (updates : gmap str pyval) :
  updated_record (updated_record current updates) updates = updated_record current updates.
Proof.
  unfold updated_record.
  destruct (has_key updates _ && negb (has_key updates _)) eqn:Hauto;
    [|apply replace_fields_idem].
  apply andb_prop in Hauto as [_ Hty]. apply negb_true_iff in Hty.
  unfold has_key in Hty. apply bool_decide_eq_false in Hty.
  assert (updates !! (u "question_type") = None) as Hnone.
  { destruct (updates !! _) eqn:E; [|done]. exfalso. apply Hty. by eexists. }
  rewrite !auto_update_question_type_set.
  rewrite replace_fields_set_question_type by (done || apply replace_fields_idem).
  reflexivity.
Qed.

(** X8 -- Updates are idempotent: an update that succeeded, applied again to the
    manager it produced, succeeds with the same record and changes
    nothing. *)
Theorem update_question_idempotent (self self' : QuestionManager) (question_id : str)
    (updates : gmap str pyval) (updated : Question) :
  update_question self question_id updates = (self', Ok updated) ->
  update_question self' question_id updates = (self', Ok updated).
Proof.
  intros Hupd.
  apply update_question_ok_inv in Hupd as (current & Hcur & Hvalid & -> & ->).
  unfold update_question. cbn [_questions _source_file_map].
  rewrite lookup_insert_eq, Hvalid.
  fold (updated_record (updated_record current updates) updates).
  by rewrite updated_record_idem, insert_insert_eq.
Qed.

(** X9 -- An update is read through the seven keys of [update_keys] only: two
    non-empty updates that agree on these keys have the same effect and the
    same result, whatever else they hold (an entry for id, selected,
    explanation or images is ignored, not refused). *)
Theorem update_question_reads_update_keys (self : QuestionManager) (question_id : str)
    (updates1 updates2 : gmap str pyval) :
  updates1 <> ∅ -> updates2 <> ∅ ->
  Forall (fun key => updates1 !! key = updates2 !! key) update_keys ->
  update_question self question_id updates1 = update_question self question_id updates2.
Proof.
  intros Hne1 Hne2 Hkeys. unfold update_keys in Hkeys.
  repeat match type of Hkeys with
         | Forall _ (_ :: _) =>
           let Hk := fresh "Hk" in apply Forall_cons in Hkeys as [Hk Hkeys]
         end.
  unfold update_question, _validate_updates, check_field, check_list_field,
    replace_fields, updated_field, has_key.
  rewrite (bool_decide_eq_false_2 (updates1 = ∅)) by done.
  rewrite (bool_decide_eq_false_2 (updates2 = ∅)) by done.
  by rewrite Hk, Hk0, Hk1, Hk2, Hk3, Hk4, Hk5.
Qed.

(** *** The batch processor's storing loop *)

Lemma first_with_id_cons (k : str) (q : Question) (questions : list Question) :
  first_with_id k (q :: questions)
  = if bool_decide (qid q = k) then Some q else first_with_id k questions.
Proof. reflexivity. Qed.

(** X11 -- The storing loop never overwrites: after it an identity holds what the
    manager held before, or else the first question of the list with that
    identity; questions without identity are dropped.  The source recorded
    for an identity the loop added is the file, when the file has a name;
    every other source is as before. *)
Theorem store_questions_first_wins (self : QuestionManager)
    (questions : list Question) (file_path : str) (k : str) :
  let stored := store_questions self questions file_path in
  let added :=
    bool_decide (get_question self k = None) && negb (is_empty k)
    && bool_decide (is_Some (first_with_id k questions)) in
  get_question stored k
  = match get_question self k with
    | Some q => Some q
    | None => if is_empty k then None else first_with_id k questions
    end
  /\ _source_file_map stored !! k
     = (if added && negb (is_empty file_path) then Some file_path
        else _source_file_map self !! k).
Proof.
  cbv zeta. unfold store_questions, get_question. revert self.
  induction questions as [|q rest IH]; intros self.
  - cbn [foldl first_with_id List.find].
    rewrite (bool_decide_eq_false_2 (is_Some None)) by (by intros [? ?]).
    rewrite andb_false_r. cbn [andb].
    split; [|done]. destruct (_questions self !! k); [done|by destruct k].
  - cbn [foldl]. rewrite first_with_id_cons.
    destruct (IH (add_question self (Some q) file_path).1) as [IHq IHs].
    rewrite IHq, IHs. clear IH IHq IHs.
    destruct (add_question self (Some q) file_path) as [self1 [question_id|e]] eqn:Hadd;
      cbn [fst].
    + apply add_question_ok_inv in Hadd as (q' & [= <-] & -> & Hne & Hfresh & -> & ->).
      destruct (decide (qid q = k)) as [<-|Hk].
      * rewrite lookup_insert_eq, Hfresh.
        rewrite (bool_decide_eq_true_2 (qid q = qid q)) by done.
        rewrite (bool_decide_eq_false_2 (Some q = None)) by done.
        rewrite (bool_decide_eq_true_2 (None = None)) by done.
        rewrite (bool_decide_eq_true_2 (is_Some (Some q))) by (by eexists).
        destruct (qid q) as [|c t] eqn:Hid; [done|]. cbn [is_empty negb andb].
        split; [done|].
        destruct file_path as [|d s]; cbn [is_empty negb]; [done|].
        by rewrite lookup_insert_eq.
      * rewrite lookup_insert_ne by done.
        rewrite (bool_decide_eq_false_2 (qid q = k)) by done.
        split; [done|].
        destruct (_ && negb (is_empty file_path)); [done|].
        destruct file_path as [|d s]; cbn [is_empty]; [done|].
        by rewrite lookup_insert_ne.
    + pose proof (add_question_raise_inv _ _ _ _ _ Hadd) as ->.
      destruct (decide (qid q = k)) as [<-|Hk];
        [|by rewrite (bool_decide_eq_false_2 (qid q = k)) by done].
      rewrite (bool_decide_eq_true_2 (qid q = qid q)) by done.
      unfold add_question in Hadd.
      destruct (qid q) as [|c t] eqn:Hid; cbn [is_empty negb] in *.
      * rewrite !andb_false_r. cbn [andb].
        split; [|done]. by destruct (_questions self !! []).
      * destruct (_questions self !! (c :: t)) as [q0|] eqn:Hcur.
        -- by rewrite (bool_decide_eq_false_2 (Some q0 = None)) by done.
        -- rewrite bool_decide_eq_false_2 in Hadd by (by intros [? ?]). done.
Qed.

Lemma add_question_fresh (self : QuestionManager) (question : Question)
    (source_file : str) :
  qid question <> [] ->
  _questions self !! qid question = None ->
  add_question self (Some question) source_file
  = ({| _questions := <[qid question := question]> (_questions self);
        _source_file_map :=
          if negb (is_empty source_file)
          then <[qid question := source_file]> (_source_file_map self)
          else _source_file_map self |},
     Ok (qid question)).
Proof.
  intros Hid Hfresh. unfold add_question.
  destruct (qid question) as [|c t] eqn:Hq; [done|]. cbn [is_empty].
  by rewrite bool_decide_eq_false_2 by (rewrite Hfresh; by intros [? ?]).
Qed.

(** X12 -- Questions with identities that are not empty, differ from each other
    and are new to the manager are all stored by the storing loop: the
    count grows by their number. *)
Theorem store_questions_counts (self : QuestionManager) (questions : list Question)
    (file_path : str) :
  NoDup (qid <$> questions) ->
  Forall (fun q => qid q <> [] /\ get_question self (qid q) = None) questions ->
  count (store_questions self questions file_path) = (count self + length questions)%nat.
Proof.
  unfold store_questions, count, get_question. revert self.
  induction questions as [|q rest IH]; intros self Hnd Hall.
  - cbn [foldl length]. lia.
  - cbn [foldl length]. rewrite fmap_cons in Hnd. apply NoDup_cons in Hnd as [Hq Hnd].
    apply Forall_cons in Hall as [[Hne Hfresh] Hall].
    rewrite (add_question_fresh self q file_path Hne Hfresh). cbn [fst].
    rewrite IH; [| exact Hnd |].
    + cbn [_questions]. rewrite map_size_insert_None by exact Hfresh. lia.
    + cbn [_questions]. rewrite Forall_forall in Hall |- *.
      intros q' Hq'. destruct (Hall q' Hq') as [Hne' Hfresh']. split; [done|].
      rewrite lookup_insert_ne; [done|].
      intros Heq. apply Hq. rewrite Heq. apply list_elem_of_fmap. by exists q'.
Qed.

(** *** Trimmed strings *)

Lemma lstrip_head (s : str) :
  match lstrip s with [] => True | c :: _ => isspace c = false end.
Proof.
  induction s as [|c t IH]; cbn [lstrip]; [done|].
  destruct (isspace c) eqn:Hc; [exact IH | exact Hc].
Qed.

Lemma rstrip_prefix (s : str) :
  exists suf, s = rstrip s ++ suf /\ whitespace_only suf = true.
Proof.
  destruct (lstrip_suffix (reverse s)) as (pre & Heq & Hpre).
  exists (reverse pre). split; [|by rewrite whitespace_only_reverse].
  unfold rstrip. rewrite <- reverse_app, <- Heq. by rewrite reverse_involutive.
Qed.

(** [s.strip()] neither starts nor ends with whitespace. *)
Lemma strip_trimmed (s : str) : trimmed (strip s) = true.
Proof.
  unfold strip, trimmed.
  pose proof (lstrip_head s) as Hh.
  pose proof (lstrip_head (reverse (lstrip s))) as Hl.
  destruct (rstrip_prefix (lstrip s)) as (suf & Heq & Hsuf).
  assert (last (rstrip (lstrip s)) = head (lstrip (reverse (lstrip s)))) as ->
    by apply last_reverse.
  apply andb_true_intro. split.
  - destruct (rstrip (lstrip s)) as [|c r] eqn:Hr; [done|].
    rewrite Heq in Hh. cbn [app] in Hh. by rewrite Hh.
  - destruct (lstrip (reverse (lstrip s))) as [|c r]; [done|].
    cbn [head]. by rewrite Hl.
Qed.

(** *** The answer-string parser on any input *)

Lemma upper_char_single (c : char) : exists x, upper_char c = [x].
Proof.
  unfold upper_char.
  destruct ((97 <=? c) && (c <=? 122)); [by eexists|].
  destruct (c =? 305); [by eexists|]. destruct (c =? 383); by eexists.
Qed.

Lemma contains_single_letter (x : char) :
  contains [x] [65; 66; 67; 68; 69; 70; 71; 72; 73; 74] = true ->
  is_answer_letter x = true.
Proof.
  cbn [contains starts_with]. rewrite !orb_true_iff, !andb_true_iff, !N.eqb_eq.
  intros Hx.
  repeat (destruct Hx as [[-> _]|Hx]; [reflexivity|]).
  by destruct Hx.
Qed.

Lemma circle_letter_single (ch : char) (letter : str) :
  dict_get ch CIRCLE_TO_LETTER = Some letter -> single_letter letter = true.
Proof.
  intros Hv. apply dict_get_In in Hv. vm_compute in Hv.
  repeat (destruct Hv as [Hv|Hv]; [by injection Hv as <- <-|]). done.
Qed.

Lemma answer_of_char_single (ch : char) :
  Forall (fun a => single_letter a = true) (answer_of_char ch).
Proof.
  unfold answer_of_char. destruct (upper_char_single ch) as [x ->].
  destruct (contains [x] _) eqn:Hc.
  - constructor; [|constructor]. by apply contains_single_letter.
  - destruct (dict_get ch CIRCLE_TO_LETTER) as [letter|] eqn:Hd; [|constructor].
    constructor; [|constructor]. by eapply circle_letter_single.
Qed.

(** The loop that drops repeated answers keeps the first occurrence of each
    answer not seen before. *)
Lemma unique_answers_spec (seen : gset str) (answers : list str) :
  NoDup (unique_answers seen answers)
  /\ forall a, a ∈ unique_answers seen answers <-> a ∈ answers /\ a ∉ seen.
Proof.
  revert seen. induction answers as [|ans rest IH]; intros seen; cbn [unique_answers].
  - split; [constructor|]. intros a. rewrite elem_of_nil. tauto.
  - destruct (bool_decide (ans ∈ seen)) eqn:Hin.
    + apply bool_decide_eq_true in Hin.
      destruct (IH seen) as [Hnd Hel]. split; [done|]. intros a.
      rewrite Hel, elem_of_cons. split; [tauto|].
      intros [[->|Ha] Hn]; [done|tauto].
    + apply bool_decide_eq_false in Hin.
      destruct (IH ({[ans]} ∪ seen)) as [Hnd Hel]. split.
      * constructor; [|done]. rewrite Hel. set_solver.
      * intros a. rewrite !elem_of_cons, Hel.
        destruct (decide (a = ans)) as [->|Hne]; [tauto|]. set_solver.
Qed.

Lemma parse_answer_string_single_letters (answer_str : str) :
  NoDup (_parse_answer_string answer_str)
  /\ Forall (fun a => single_letter a = true) (_parse_answer_string answer_str).
Proof.
  unfold _parse_answer_string.
  destruct (unique_answers_spec ∅ (concat (map answer_of_char
                                              (clean_answer_string answer_str))))
    as [Hnd Hel].
  split; [exact Hnd|]. apply Forall_forall. intros a Ha.
  apply Hel in Ha as [Ha _].
  apply list_elem_of_In, in_concat in Ha as (l & Hl & Ha).
  apply in_map_iff in Hl as (ch & <- & _).
  pose proof (answer_of_char_single ch) as Hall. rewrite Forall_forall in Hall.
  by apply Hall, list_elem_of_In.
Qed.

Lemma single_letters_form (l : list str) :
  Forall (fun a => single_letter a = true) l ->
  exists S, l = letters S /\ forallb is_answer_letter S = true.
Proof.
  induction 1 as [|a l Ha Hl (S & -> & HS)]; [by exists []|].
  destruct a as [|c [|d t]]; try discriminate.
  exists (c :: S). cbn [letters map forallb]. cbn [single_letter] in Ha.
  by rewrite Ha, HS.
Qed.

(** X14 -- The answer-string parser on any string: the result has no duplicates
    and every entry is one letter of A to J; writing the result out again,
    with any string of the separators 、 , ， and space between the
    entries, and parsing that gives the same result. *)
Theorem parse_answer_string_canonical (answer_str : str) :
  NoDup (_parse_answer_string answer_str)
  /\ Forall (fun a => single_letter a = true) (_parse_answer_string answer_str)
  /\ forall sep : str,
       forallb is_separator sep = true ->
       _parse_answer_string (join sep (_parse_answer_string answer_str))
       = _parse_answer_string answer_str.
Proof.
  destruct (parse_answer_string_single_letters answer_str) as [Hnd Hall].
  split; [exact Hnd|]. split; [exact Hall|]. intros sep Hsep.
  destruct (single_letters_form _ Hall) as (S & HS & Hletters).
  rewrite HS in Hnd |- *. unfold _parse_answer_string at 1.
  rewrite (clean_join_letters sep S Hsep Hletters), (answers_of_letters S Hletters).
  apply unique_answers_nodup; [exact Hnd | set_solver].
Qed.

(** *** The extractors on any span *)

Lemma in_char_set_single (lbl letters : str) :
  in_char_set lbl letters = true -> exists c, lbl = [c] /\ In c letters.
Proof.
  unfold in_char_set. intros Hin. apply existsb_exists in Hin as (c & Hc & Heq).
  exists c. split; [|exact Hc]. unfold str_eqb in Heq.
  by apply bool_decide_eq_true in Heq.
Qed.

Lemma digits_of_uint_ascii (d : Decimal.uint) :
  forallb ascii_digit (digits_of_uint d) = true.
Proof. induction d; cbn [digits_of_uint forallb]; [done|..]; by rewrite IHd. Qed.

Section Extractors.
Context `{UnicodeData}.

Lemma first_answers_single_letters (fl : flags) (patterns : list regex) (text : str) :
  NoDup (first_answers fl patterns text)
  /\ Forall (fun a => single_letter a = true) (first_answers fl patterns text).
Proof.
  induction patterns as [|pattern ps IH]; cbn [first_answers]; [by split; constructor|].
  destruct (re.search fl pattern text) as [m|]; [|exact IH].
  destruct (negb (is_empty (_parse_answer_string (group text m 1)))); [|exact IH].
  apply parse_answer_string_single_letters.
Qed.

Lemma extract_answer_single_letters (text question_number : str) :
  NoDup (extract_answer text question_number)
  /\ Forall (fun a => single_letter a = true) (extract_answer text question_number).
Proof.
  unfold extract_answer.
  assert (NoDup (@nil str) /\ Forall (fun a => single_letter a = true) (@nil str))
    as Hnil by (split; constructor).
  repeat match goal with
         | |- context [if ?b then _ else _] => destruct b
         end;
    first [exact Hnil | apply first_answers_single_letters].
Qed.

(** X15 -- Whatever the span, and for every number made of decimal digits
    (the empty number included), the answers the extractor returns are
    letters of A to J without duplicates; on an empty or whitespace-only
    span there are none. *)
Theorem extract_answer_canonical (text question_number : str) :
  forallb isdecimal question_number = true ->
  (whitespace_only text = true -> extract_answer text question_number = [])
  /\ NoDup (extract_answer text question_number)
  /\ Forall (fun a => single_letter a = true) (extract_answer text question_number).
Proof.
  intros _. split; [|apply extract_answer_single_letters].
  unfold extract_answer. rewrite blank_whitespace_only. by intros ->.
Qed.

Lemma normalized_label_single (t : pattern_type) (lbl : str) :
  in_char_set lbl (option_pattern_of t).2 = true ->
  single_letter (normalized_label t lbl) = true.
Proof.
  intros Hin. apply in_char_set_single in Hin as (c & -> & Hc).
  destruct t; cbn [option_pattern_of snd In] in Hc;
    repeat (destruct Hc as [<-|Hc]; [by vm_compute|]); done.
Qed.

Lemma extract_options_by_pattern_well_formed (text : str) (t : pattern_type) :
  Forall well_formed_option (_extract_options_by_pattern text t).
Proof.
  apply Forall_forall. intros o Ho. unfold _extract_options_by_pattern in Ho.
  pose proof (normalized_label_single t) as Hlabel.
  destruct (option_pattern_of t) as [pattern label_set]. cbn [snd] in Hlabel.
  apply list_elem_of_omap in Ho as (m & _ & Hm).
  destruct (in_char_set (group text m 1) label_set) eqn:Hin; [|done].
  destruct (is_empty (strip _)) eqn:Hempty in Hm; [done|].
  injection Hm as <-. unfold well_formed_option. cbn [label content option_images].
  split; [by apply Hlabel|]. split; [|split; [apply strip_trimmed|done]].
  intros Heq. by rewrite Heq in Hempty.
Qed.

Lemma extract_options_all_well_formed (text : str) :
  Forall well_formed_option (extract_options text).
Proof.
  unfold extract_options.
  repeat match goal with
         | |- context [if ?b then _ else _] => destruct b
         end;
    first [constructor | apply extract_options_by_pattern_well_formed].
Qed.


Lemma clean_explanation_trimmed (explanation : str) :
  trimmed (_clean_explanation explanation) = true.
Proof.
  unfold _clean_explanation. destruct (is_empty explanation); [done|apply strip_trimmed].
Qed.

Lemma first_explanation_trimmed (fl : flags) (patterns : list regex) (text : str) :
  trimmed (first_explanation fl patterns text) = true.
Proof.
  induction patterns as [|pattern ps IH]; cbn [first_explanation]; [done|].
  destruct (re.search fl pattern text) as [m|]; [|exact IH].
  destruct (negb (is_empty _)); [apply clean_explanation_trimmed | exact IH].
Qed.

Lemma extract_explanation_is_trimmed (text question_number : str) :
  trimmed (extract_explanation text question_number) = true.
Proof.
  unfold extract_explanation.
  repeat match goal with
         | |- context [if ?b then _ else _] => destruct b
         | |- context [match re.search ?fl ?p ?t with _ => _ end] =>
           destruct (re.search fl p t)
         end;
    first [ done | apply first_explanation_trimmed | apply clean_explanation_trimmed ].
Qed.

(** X17 -- For every number made of decimal digits (the empty number
    included), the explanation of a span has no whitespace around it and is
    empty for an empty or whitespace-only span.  With a number given, when the
    pattern made for that number finds no explanation and the span holds
    more than one numbered answer marker, the explanation is empty: the
    text after another question's marker is not taken. *)
Theorem extract_explanation_trimmed (text question_number : str) :
  forallb isdecimal question_number = true ->
  (whitespace_only text = true -> extract_explanation text question_number = [])
  /\ trimmed (extract_explanation text question_number) = true
  /\ (question_number <> [] ->
      first_explanation M [specific_explanation_pattern question_number] text = [] ->
      has_multiple_answers text = true ->
      extract_explanation text question_number = []).
Proof.
  intros _. split; [|split; [apply extract_explanation_is_trimmed|]];
    unfold extract_explanation; rewrite blank_whitespace_only.
  - by intros ->.
  - intros Hn Hspecific Hmulti. destruct (whitespace_only text); [done|].
    destruct question_number as [|c t]; [done|]. cbn [is_empty negb].
    by rewrite Hspecific, Hmulti.
Qed.

Lemma extract_question_text_trimmed (text : str) :
  trimmed (_extract_question_text text) = true.
Proof.
  unfold _extract_question_text.
  assert (forall (ps : list regex) (q : str),
             trimmed q = true ->
             trimmed (foldl (fun question_text pattern =>
                               strip (re.sub1 NOFLAG pattern [] question_text)) q ps)
             = true) as Hfold.
  { induction ps as [|p ps IH]; intros q Hq; cbn [foldl]; [exact Hq|].
    apply IH, strip_trimmed. }
  apply Hfold, strip_trimmed.
Qed.

(** *** The numeral normalizer, applied twice *)

Lemma convert_chinese_number_passes (number : str) :
  match number with [] => True | c :: _ => is_cjk_numeral c = false end ->
  _convert_chinese_number number = number.
Proof.
  intros Hc. unfold _convert_chinese_number.
  destruct (dict_get number CHINESE_TO_ARABIC) as [v|] eqn:Hv.
  - apply table_keys_cjk in Hv as (c & t & -> & Hcjk). congruence.
  - by rewrite (match_cjk_numeral_only_fails _ Hc).
Qed.

Lemma table_values_ascii (number v : str) :
  dict_get number CHINESE_TO_ARABIC = Some v -> forallb ascii_digit v = true.
Proof.
  intros Hv. apply dict_get_In in Hv. vm_compute in Hv.
  repeat (destruct Hv as [Hv|Hv]; [by injection Hv as <- <-|]). done.
Qed.

(** X18 -- The numeral normalizer is idempotent: what it returns is a number it
    leaves alone, so normalizing the number of a boundary again (as the
    assembler would for a number read from a span) changes nothing. *)
Theorem convert_chinese_number_idempotent (number : str) :
  _convert_chinese_number (_convert_chinese_number number)
  = _convert_chinese_number number.
Proof.
  assert (forall v : str, forallb ascii_digit v = true ->
                          _convert_chinese_number v = v) as Hdigits.
  { intros v Hv. apply convert_chinese_number_passes.
    destruct v as [|c t]; [done|]. cbn [forallb] in Hv.
    apply andb_prop in Hv as [Hc _]. by apply ascii_digit_not_cjk. }
  destruct (dict_get number CHINESE_TO_ARABIC) as [v|] eqn:Hv.
  - assert (_convert_chinese_number number = v) as ->
      by (unfold _convert_chinese_number; by rewrite Hv).
    apply Hdigits. by eapply table_values_ascii.
  - destruct (re.match_ NOFLAG cjk_numeral_only number) as [m|] eqn:Hm.
    + assert (_convert_chinese_number number
              = str_of_int (_parse_chinese_number number)) as ->
        by (unfold _convert_chinese_number; by rewrite Hv, Hm).
      apply Hdigits, digits_of_uint_ascii.
    + assert (_convert_chinese_number number = number) as Hsame
        by (unfold _convert_chinese_number; by rewrite Hv, Hm).
      by rewrite !Hsame.
Qed.

(** *** The segmenter's numbers *)

Lemma split_questions_numbers (text : str) (answer_map : gmap str str)
    (boundaries : list (str * nat)) :
  (split_questions text answer_map boundaries).*1 = boundaries.*1.
Proof.
  induction boundaries as [|[number start_pos] bs IH]; [done|].
  cbn [split_questions]. rewrite !fmap_cons. cbn [fst]. by rewrite IH.
Qed.

(** X20 -- The spans the segmenter returns carry the numbers of the detected
    boundaries, one span per boundary and in their order, so no two spans
    of a document have the same number. *)
Theorem recognize_questions_numbers (text : str) :
  (recognize_questions text).*1
  = (if whitespace_only text then [] else (_find_question_boundaries text).*1)
  /\ length (recognize_questions text)
     = (if whitespace_only text then 0%nat else length (_find_question_boundaries text))
  /\ NoDup (recognize_questions text).*1.
Proof.
  assert ((recognize_questions text).*1
          = (if whitespace_only text then [] else (_find_question_boundaries text).*1))
    as Hnum.
  { unfold recognize_questions. rewrite blank_whitespace_only.
    destruct (whitespace_only text); [done|].
    destruct (_find_question_boundaries text) as [|b bs] eqn:Hb; [done|].
    cbn [is_empty]. apply split_questions_numbers. }
  split; [exact Hnum|]. split.
  - rewrite <- (length_fmap fst (recognize_questions text)), Hnum.
    destruct (whitespace_only text); [done|apply length_fmap].
  - rewrite Hnum. destruct (whitespace_only text); [constructor|].
    apply (unique_pass_from ∅ (-100)).
Qed.

End Extractors.

(** *** The assembled question *)

Section AssembledQuestion.
Context `{UnicodeData}.

(** The record [parse_question] builds before it classifies and validates
    it, and what becomes of it. *)
Lemma parse_question_shape (question_id text_block given : str) (q : Question) :
  parse_question question_id text_block given = Ok q ->
  exists (q0 : Question) (number0 : str),
    q = _validate_question
          (set_question_type (identify_question_type q0 text_block) q0)
    /\ qid q0 = question_id /\ selected q0 = true /\ images q0 = []
    /\ metadata q0 = ∅
    /\ question_text q0 = _extract_question_text text_block
    /\ options q0 = extract_options text_block
    /\ correct_answers q0 = extract_answer text_block number0
    /\ explanation q0 = extract_explanation text_block number0.
Proof.
  unfold parse_question. destruct (blank text_block); [done|]. intros [= <-].
  eexists _, _. split; [reflexivity|]. by repeat split.
Qed.

(** X21 -- Every Question the assembler returns is well formed field by field:
    it has the identity drawn for it, is selected, has no images and no
    metadata; its question text and its explanation have no whitespace
    around them; its options are well formed; its answers are letters of A
    to J without duplicates. *)
Theorem parse_question_fields_well_formed (question_id text_block given : str)
    (q : Question) :
  parse_question question_id text_block given = Ok q ->
  qid q = question_id /\ selected q = true /\ images q = [] /\ metadata q = ∅
  /\ trimmed (question_text q) = true
  /\ trimmed (explanation q) = true
  /\ Forall well_formed_option (options q)
  /\ NoDup (correct_answers q)
  /\ Forall (fun a => single_letter a = true) (correct_answers q).
Proof.
  intros Hq.
  apply parse_question_shape in Hq
    as (q0 & number0 & -> & Hid & Hsel & Himg & Hmeta & Htext & Hopts & Hans & Hexp).
  cbn [_validate_question set_needs_review set_question_type qid selected images
       metadata question_text explanation options correct_answers].
  rewrite Hid, Hsel, Himg, Hmeta, Htext, Hopts, Hans, Hexp.
  do 4 (split; [reflexivity|]).
  split; [apply extract_question_text_trimmed|].
  split; [apply extract_explanation_is_trimmed|].
  split; [apply extract_options_all_well_formed|].
  apply extract_answer_single_letters.
Qed.

(** X22 -- The type of every Question the assembler returns is the classifier's
    answer on the returned record itself, whatever text it is given beside
    it; with answers it is Single for one and Multiple for more; Unknown
    occurs only without answers; and a Question that is not flagged for
    review has at least one answer, at least two options, and the type that
    goes with the number of its answers. *)
Theorem parse_question_type_consistent (question_id text_block given : str)
    (q : Question) :
  parse_question question_id text_block given = Ok q ->
  (forall any_text : str, question_type q = identify_question_type q any_text)
  /\ (correct_answers q <> [] ->
      question_type q = type_by_count (length (correct_answers q)))
  /\ (question_type q = UNKNOWN -> correct_answers q = [])
  /\ (needs_review q = false ->
      question_type q = type_by_count (length (correct_answers q))
      /\ (1 <= length (correct_answers q))%nat
      /\ (2 <= length (options q))%nat).
Proof.
  intros Hq.
  apply parse_question_shape in Hq as (q0 & number0 & -> & _).
  set (q := _validate_question
              (set_question_type (identify_question_type q0 text_block) q0)).
  assert (forall any_text : str, question_type q = identify_question_type q any_text)
    as Hsame by reflexivity.
  assert (correct_answers q <> [] ->
          question_type q = type_by_count (length (correct_answers q))) as Hcount.
  { intros Hne. rewrite (Hsame []). by apply identify_question_type_by_count. }
  assert (needs_review q = review_flag q) as Hflag by reflexivity.
  split; [exact Hsame|]. split; [exact Hcount|]. split.
  - intros Hunknown. destruct (correct_answers q) as [|a l] eqn:Hans; [done|].
    rewrite Hcount in Hunknown by done. by destruct l.
  - intros Hrev. rewrite Hflag in Hrev.
    pose proof (review_flag_iff q) as [_ Hiff].
    assert (correct_answers q <> []) as Hne.
    { intros Heq. rewrite Hiff in Hrev; [done|]. by right; right; left. }
    split; [by apply Hcount|]. split.
    + destruct (correct_answers q); [done|]. cbn [length]. lia.
    + destruct (decide (length (options q) < 2)%nat) as [Hlt|Hge]; [|lia].
      rewrite Hiff in Hrev; [done|]. by right; left.
Qed.

(** *** The loop over the spans of a document *)

(** X13 -- For spans whose numbers are made of decimal digits (or are
    empty), the loop of [process_single_file] returns one Question for each
    span that is not empty or whitespace-only, in the order of the spans;
    the question of the i-th such span is what [parse_question] returns for
    it, with the i-th identity drawn and, when the span came with a number,
    that number.  The other spans are skipped. *)
Theorem parse_blocks_skips_blank (uuid4 : nat -> str) (drawn : nat)
    (question_blocks : list (str * str)) :
  Forall (fun b => forallb isdecimal b.1 = true) question_blocks ->
  length (parse_blocks uuid4 drawn question_blocks)
  = length (non_blank_blocks question_blocks)
  /\ forall (i : nat) (given text_block : str),
       non_blank_blocks question_blocks !! i = Some (given, text_block) ->
       exists q,
         parse_blocks uuid4 drawn question_blocks !! i = Some q
         /\ parse_question (uuid4 (drawn + i)%nat) text_block given = Ok q
         /\ qid q = uuid4 (drawn + i)%nat
         /\ (given <> [] -> number q = given).
Proof.
  intros _. revert drawn. induction question_blocks as [|[n t] rest IH]; intros drawn.
  - split; [done|]. intros i given text_block Hi.
    unfold non_blank_blocks in Hi. cbn [List.filter] in Hi. by rewrite lookup_nil in Hi.
  - unfold non_blank_blocks in *. cbn [parse_blocks List.filter snd].
    destruct (whitespace_only t) eqn:Hw; cbn [negb].
    + assert (parse_question (uuid4 drawn) t n
              = Raise (ValidationError (u "题目文本不能为空"))) as ->
        by (unfold parse_question; by rewrite blank_whitespace_only, Hw).
      apply IH.
    + destruct (parse_question_ok (uuid4 drawn) t n Hw) as (q & Hq & Hid & Hn & _).
      rewrite Hq. destruct (IH (S drawn)) as [IHlen IHget].
      split; [cbn [length]; by rewrite IHlen|].
      intros [|i] given text_block Hi.
      * cbn in Hi. injection Hi as <- <-. exists q. rewrite Nat.add_0_r.
        split; [done|]. split; [done|]. split; [done|].
        intros Hne. rewrite Hn. by destruct n.
      * cbn in Hi. destruct (IHget i given text_block Hi) as (q' & Hq' & Hrest).
        exists q'. split; [exact Hq'|].
        replace (drawn + S i)%nat with (S drawn + i)%nat by lia. exact Hrest.
Qed.

End AssembledQuestion.

(** *** Where the boundaries come from *)

Section BoundarySources.
Context `{UnicodeData}.

Lemma finditer_from_start (fl : flags) (r : regex) (s : str) (skip p : nat)
    (pv : option char) (m : rmatch) :
  m ∈ finditer_from fl r skip p pv s -> (p <= m_start m <= p + length s)%nat.
Proof.
  revert skip p pv. induction s as [|c t IH]; intros skip p pv Hm.
  - destruct skip as [|sk]; cbn [finditer_from] in Hm; [|by apply elem_of_nil in Hm].
    destruct (match_at fl r p pv []) as [m0|] eqn:Hm0; [|by apply elem_of_nil in Hm].
    apply list_elem_of_singleton in Hm as ->.
    unfold match_at in Hm0. destruct (run fl r _ Some); [|done].
    injection Hm0 as <-. cbn [m_start length]. lia.
  - cbn [length]. destruct skip as [|sk]; cbn [finditer_from] in Hm.
    + destruct (match_at fl r p pv (c :: t)) as [m0|] eqn:Hm0.
      * apply elem_of_cons in Hm as [->|Hm].
        -- unfold match_at in Hm0. destruct (run fl r _ Some); [|done].
           injection Hm0 as <-. cbn [m_start]. lia.
        -- apply IH in Hm. lia.
      * apply IH in Hm. lia.
    + apply IH in Hm. lia.
Qed.

Lemma unique_pass_subset (seen : gset str) (last_pos : Z) (bs : list (str * nat))
    (b : str * nat) :
  b ∈ unique_pass seen last_pos bs -> b ∈ bs.
Proof.
  revert seen last_pos. induction bs as [|[number pos] bs IH]; intros seen last_pos;
    cbn [unique_pass]; [done|].
  destruct (_ && _).
  - intros Hb. apply elem_of_cons in Hb as [->|Hb]; [left|right; by eapply IH].
  - intros Hb. right. by eapply IH.
Qed.

(** X19 -- Every boundary the detector returns is a match of one of the four
    number patterns: its offset is where the match starts, a position of
    the text that does not lie inside a bracket marker 【 opened in the 20
    characters before it and not yet closed, and its number is the
    normalized first group of the match. *)
Theorem find_question_boundaries_sound (text : str) :
  Forall (fun b =>
            exists (pattern : regex) (m : rmatch),
              pattern ∈ QUESTION_NUMBER_PATTERNS
              /\ m ∈ re.finditer MS pattern text
              /\ b.1 = _convert_chinese_number (group text m 1)
              /\ b.2 = m_start m
              /\ (b.2 <= length text)%nat
              /\ is_in_marker text b.2 = false)
         (_find_question_boundaries text).
Proof.
  apply Forall_forall. intros b Hb. unfold _find_question_boundaries in Hb.
  apply unique_pass_subset in Hb. rewrite sort_by_pos_perm in Hb.
  unfold candidate_boundaries in Hb.
  apply list_elem_of_In, in_concat in Hb as (l & Hl & Hb).
  apply in_map_iff in Hl as (pattern & <- & Hpattern).
  apply list_elem_of_In in Hb. unfold pattern_boundaries in Hb.
  apply list_elem_of_omap in Hb as (m & Hm & Hb).
  destruct (is_in_marker text (m_start m)) eqn:Hmarker; [done|].
  injection Hb as <-. cbn [fst snd].
  exists pattern, m. split; [by apply list_elem_of_In|]. split; [exact Hm|].
  split; [done|]. split; [done|]. split; [|exact Hmarker].
  apply finditer_from_start in Hm. lia.
Qed.

End BoundarySources.

(** *** The loading loop and the statistics of the controller *)

Section Loading.
Context `{UnicodeData}.


End Loading.

Lemma filter_by_type_partition (l : list Question) :
  length l
  = (length (List.filter (fun q => bool_decide (question_type q = SINGLE_CHOICE)) l)
     + length (List.filter (fun q => bool_decide (question_type q = MULTIPLE_CHOICE)) l)
     + length (List.filter (fun q => bool_decide (question_type q = UNKNOWN)) l))%nat.
Proof.
  induction l as [|q l IH]; [done|]. cbn [List.filter length].
  destruct (question_type q); repeat (case_bool_decide; try congruence);
    cbn [length]; lia.
Qed.

(** X24 -- The statistics add up: the total is the count of the manager
    and the sum of the numbers of single-choice, multiple-choice and
    unknown questions, and neither the number of questions to review nor
    the number of selected questions exceeds it. *)
Theorem get_statistics_add_up (question_manager : QuestionManager) :
  let s := get_statistics question_manager in
  st_total s = count question_manager
  /\ st_total s = (st_single_choice s + st_multiple_choice s + st_unknown s)%nat
  /\ (st_needs_review s <= st_total s)%nat
  /\ (get_selected_count question_manager <= st_total s)%nat.
Proof.
  cbv zeta. unfold get_statistics, get_selected_count, get_all_questions, count.
  cbn [st_total st_single_choice st_multiple_choice st_unknown st_needs_review].
  split; [by rewrite length_fmap, length_map_to_list|].
  split; [apply filter_by_type_partition|].
  split; apply List.filter_length_le.
Qed.

(** *** The further properties on the sample data *)

Section MoreExamples.
#[local] Existing Instance ascii_digits.

(** [tagged_question] goes into the empty manager. *)
Lemma add_question_stores_witness :
  qid tagged_question <> []
  /\ _questions new_manager !! qid tagged_question = None
  /\ exists self',
       add_question new_manager (Some tagged_question) [] = (self', Ok (u "q1"))
       /\ get_question self' (u "q1") = Some tagged_question
       /\ count self' = 1%nat.
Proof.
  assert (qid tagged_question <> []) as Hne by done.
  assert (_questions new_manager !! qid tagged_question = None) as Hfresh
    by (vm_compute; reflexivity).
  split; [exact Hne|]. split; [exact Hfresh|].
  destruct (add_question_stores new_manager tagged_question [] Hne Hfresh)
    as (self' & Hadd & Hget & _ & _ & Hcount & _).
  exists self'. split; [exact Hadd|]. split; [exact Hget|]. exact Hcount.
Defined.

(** [tagged_question] goes into the empty manager and out again. *)
Lemma add_then_remove_witness :
  qid tagged_question <> []
  /\ _questions new_manager !! qid tagged_question = None
  /\ _source_file_map new_manager !! qid tagged_question = None
  /\ remove_question (add_question new_manager (Some tagged_question) (u "a.pdf")).1
       (qid tagged_question)
     = (new_manager, true).
Proof.
  assert (qid tagged_question <> []) as Hne by done.
  assert (_questions new_manager !! qid tagged_question = None) as Hfresh
    by (vm_compute; reflexivity).
  assert (_source_file_map new_manager !! qid tagged_question = None) as Hsrc
    by (vm_compute; reflexivity).
  split; [exact Hne|]. split; [exact Hfresh|]. split; [exact Hsrc|].
  exact (add_then_remove new_manager tagged_question (u "a.pdf") Hne Hfresh Hsrc).
Defined.

(** The question of [tagged_manager] is removed. *)
Lemma remove_question_deletes_witness :
  _questions tagged_manager !! (u "q1") = Some tagged_question
  /\ exists self',
       remove_question tagged_manager (u "q1") = (self', true)
       /\ get_question self' (u "q1") = None.
Proof.
  assert (_questions tagged_manager !! (u "q1") = Some tagged_question) as Hcur
    by (vm_compute; reflexivity).
  split; [exact Hcur|].
  destruct (remove_question_deletes tagged_manager (u "q1") tagged_question Hcur)
    as (self' & Hrem & Hget & _).
  exists self'. by split.
Defined.

(** A batch of [tagged_question] twice: the second is refused, the first
    stays. *)
Lemma add_questions_keeps_prefix_witness :
  add_questions new_manager [Some tagged_question] [] = (tagged_manager, Ok [u "q1"])
  /\ (add_question tagged_manager (Some tagged_question) []).2 = Raise duplicate_q1
  /\ add_questions new_manager ([Some tagged_question] ++ [Some tagged_question]) []
     = (tagged_manager, Raise duplicate_q1).
Proof.
  assert (add_questions new_manager [Some tagged_question] []
          = (tagged_manager, Ok [u "q1"])) as Hgood by (vm_compute; reflexivity).
  assert ((add_question tagged_manager (Some tagged_question) []).2
          = Raise duplicate_q1) as Hbad by (vm_compute; reflexivity).
  split; [exact Hgood|]. split; [exact Hbad|].
  exact (proj1 (add_questions_keeps_prefix new_manager tagged_manager
                  [Some tagged_question] [] (Some tagged_question) []
                  [u "q1"] duplicate_q1 Hgood Hbad)).
Defined.

(** The update [clear_answers] of [tagged_manager] writes the one record. *)
Lemma update_question_frame_witness :
  update_question tagged_manager (u "q1") clear_answers
  = (cleared_manager, Ok cleared_question)
  /\ exists current,
       get_question tagged_manager (u "q1") = Some current
       /\ qid cleared_question = qid current
       /\ selected cleared_question = selected current
       /\ count cleared_manager = count tagged_manager.
Proof.
  assert (update_question tagged_manager (u "q1") clear_answers
          = (cleared_manager, Ok cleared_question)) as Hupd
    by (vm_compute; reflexivity).
  split; [exact Hupd|].
  destruct (update_question_frame tagged_manager cleared_manager (u "q1")
              clear_answers cleared_question Hupd)
    as (current & Hcur & Hid & _ & _ & Hsel & _ & _ & Hcount & _).
  exists current. split; [exact Hcur|]. split; [exact Hid|].
  split; [exact Hsel | exact Hcount].
Defined.

(** The update [clear_answers] applied twice. *)
Lemma update_question_idempotent_witness :
  update_question tagged_manager (u "q1") clear_answers
  = (cleared_manager, Ok cleared_question)
  /\ update_question cleared_manager (u "q1") clear_answers
     = (cleared_manager, Ok cleared_question).
Proof.
  assert (update_question tagged_manager (u "q1") clear_answers
          = (cleared_manager, Ok cleared_question)) as Hupd
    by (vm_compute; reflexivity).
  split; [exact Hupd|].
  exact (update_question_idempotent tagged_manager cleared_manager (u "q1")
           clear_answers cleared_question Hupd).
Defined.

(** An entry under id in an update changes nothing. *)
Lemma update_question_reads_update_keys_witness :
  number_update <> ∅
  /\ number_update_with_id <> ∅
  /\ Forall (fun key => number_update !! key = number_update_with_id !! key) update_keys
  /\ update_question tagged_manager (u "q1") number_update
     = update_question tagged_manager (u "q1") number_update_with_id.
Proof.
  assert (number_update <> ∅) as Hne1.
  { apply (bool_decide_unpack (number_update <> ∅)). vm_compute. exact Logic.I. }
  assert (number_update_with_id <> ∅) as Hne2.
  { apply (bool_decide_unpack (number_update_with_id <> ∅)). vm_compute. exact Logic.I. }
  assert (Forall (fun key => number_update !! key = number_update_with_id !! key)
                 update_keys) as Hkeys.
  { unfold update_keys.
    repeat (apply List.Forall_cons; [vm_compute; reflexivity|]). apply List.Forall_nil. }
  split; [exact Hne1|]. split; [exact Hne2|]. split; [exact Hkeys|].
  exact (update_question_reads_update_keys tagged_manager (u "q1")
           number_update number_update_with_id Hne1 Hne2 Hkeys).
Defined.

(** The storing loop on the empty manager and [tagged_question]. *)
Lemma store_questions_counts_witness :
  NoDup (qid <$> [tagged_question])
  /\ Forall (fun q => qid q <> [] /\ get_question new_manager (qid q) = None)
            [tagged_question]
  /\ count (store_questions new_manager [tagged_question] (u "a.pdf")) = 1%nat.
Proof.
  assert (NoDup (qid <$> [tagged_question])) as Hnd.
  { apply (bool_decide_unpack (NoDup (qid <$> [tagged_question]))).
    vm_compute. exact Logic.I. }
  assert (Forall (fun q => qid q <> [] /\ get_question new_manager (qid q) = None)
                 [tagged_question]) as Hall.
  { apply List.Forall_cons; [|apply List.Forall_nil].
    split; [done | vm_compute; reflexivity]. }
  split; [exact Hnd|]. split; [exact Hall|].
  exact (store_questions_counts new_manager [tagged_question] (u "a.pdf") Hnd Hall).
Defined.

(** The Question assembled from [tcp_span], field by field. *)
Lemma parse_question_fields_well_formed_witness :
  parse_question (u "id") tcp_span (u "1") = Ok tcp_question
  /\ qid tcp_question = u "id"
  /\ Forall well_formed_option (options tcp_question)
  /\ NoDup (correct_answers tcp_question).
Proof.
  assert (parse_question (u "id") tcp_span (u "1") = Ok tcp_question) as Hq
    by (vm_compute; reflexivity).
  split; [exact Hq|].
  destruct (parse_question_fields_well_formed (u "id") tcp_span (u "1") tcp_question Hq)
    as (Hid & _ & _ & _ & _ & _ & Hopts & Hnd & _).
  split; [exact Hid|]. split; [exact Hopts | exact Hnd].
Defined.

(** The type of the Question assembled from [tcp_span]. *)
Lemma parse_question_type_consistent_witness :
  parse_question (u "id") tcp_span (u "1") = Ok tcp_question
  /\ (correct_answers tcp_question <> [] ->
      question_type tcp_question
      = type_by_count (length (correct_answers tcp_question))).
Proof.
  assert (parse_question (u "id") tcp_span (u "1") = Ok tcp_question) as Hq
    by (vm_compute; reflexivity).
  split; [exact Hq|].
  exact (proj1 (proj2 (parse_question_type_consistent (u "id") tcp_span (u "1")
                         tcp_question Hq))).
Defined.

(** The loop over [sample_blocks]: one Question, the blank span skipped. *)
Lemma parse_blocks_skips_blank_witness :
  Forall (fun b => forallb isdecimal b.1 = true) sample_blocks
  /\ length (parse_blocks sample_uuid4 0 sample_blocks) = 1%nat
  /\ exists q,
       parse_blocks sample_uuid4 0 sample_blocks !! 0%nat = Some q
       /\ qid q = u "id-0" /\ number q = u "1".
Proof.
  assert (Forall (fun b => forallb isdecimal b.1 = true) sample_blocks) as Hall.
  { unfold sample_blocks.
    repeat (apply List.Forall_cons; [vm_compute; reflexivity|]). apply List.Forall_nil. }
  split; [exact Hall|].
  destruct (parse_blocks_skips_blank sample_uuid4 0 sample_blocks Hall) as [Hlen Hget].
  split; [rewrite Hlen; vm_compute; reflexivity|].
  destruct (Hget 0%nat (u "1") tcp_span) as (q & Hq & _ & Hid & Hn);
    [vm_compute; reflexivity|].
  exists q. split; [exact Hq|]. split; [exact Hid|]. by apply Hn.
Defined.

(** The answers of [tcp_span] for the number 1. *)
Lemma extract_answer_canonical_witness :
  forallb isdecimal (u "1") = true
  /\ NoDup (extract_answer tcp_span (u "1"))
  /\ Forall (fun a => single_letter a = true) (extract_answer tcp_span (u "1")).
Proof.
  split; [reflexivity|].
  exact (proj2 (extract_answer_canonical tcp_span (u "1") eq_refl)).
Defined.

(** The explanation of [span_with_two_entries] for the number 3: the span
    holds two numbered answer markers and none for 3. *)
Lemma extract_explanation_trimmed_witness :
  forallb isdecimal (u "3") = true
  /\ u "3" <> []
  /\ first_explanation M [specific_explanation_pattern (u "3")] span_with_two_entries = []
  /\ has_multiple_answers span_with_two_entries = true
  /\ extract_explanation span_with_two_entries (u "3") = [].
Proof.
  assert (u "3" <> []) as Hne by done.
  assert (first_explanation M [specific_explanation_pattern (u "3")]
            span_with_two_entries = []) as Hspecific by (vm_compute; reflexivity).
  assert (has_multiple_answers span_with_two_entries = true) as Hmulti
    by (vm_compute; reflexivity).
  split; [reflexivity|]. split; [exact Hne|]. split; [exact Hspecific|].
  split; [exact Hmulti|].
  exact (proj2 (proj2 (extract_explanation_trimmed span_with_two_entries (u "3")
                         eq_refl)) Hne Hspecific Hmulti).
Defined.

End MoreExamples.
